(** * gen-messages.py: synthetic rows for the timescaledb "messages" table

    A shallow embedding of [scripts/gen-ts-data/gen-messages.py] and of the
    parts of the Python runtime the script calls (ranges, f-string rendering
    of integers, [uuid.uuid4], [datetime]/[timedelta] arithmetic, binary64
    floats, [random.uniform]).  The six module-level constants of the script
    become the fields of [config]; everything the script reads from outside
    (clock, local time zone, entropy, Mersenne twister output, shortest-digit
    generation of [repr]) is a field of [world]. *)

From Stdlib Require Import ZArith List String Ascii Bool Lia Arith.
From Stdlib Require Import Decimal DecimalString DecimalZ.
From Stdlib Require Import Floats.SpecFloat.
Import ListNotations.

Local Open Scope Z_scope.

(** ** Exceptions and results *)

Inductive exn : Type :=
| OverflowError
| ZeroDivisionError
| ValueError
| OSError.

Inductive result (A : Type) : Type :=
| Ok (a : A)
| Raise (e : exn).

Arguments Ok {A} a.
Arguments Raise {A} e.

Definition bind {A B : Type} (r : result A) (k : A -> result B) : result B :=
  match r with
  | Ok a => k a
  | Raise e => Raise e
  end.

Notation "x <- c ;; k" := (bind c (fun x => k))
  (at level 61, c at next level, right associativity).

(** [for x in xs: body], where the body may raise and threads a state. *)
Fixpoint for_each {A S : Type} (xs : list A) (body : A -> S -> result S)
  (s : S) : result S :=
  match xs with
  | [] => Ok s
  | x :: xs' => s' <- body x s ;; for_each xs' body s'
  end.

(** The same loop for a body that cannot raise. *)
Fixpoint for_pure {A S : Type} (xs : list A) (body : A -> S -> S) (s : S) : S :=
  match xs with
  | [] => s
  | x :: xs' => for_pure xs' body (body x s)
  end.

(** [range(a, b)] on Python integers: empty when [b <= a]. *)
Definition py_range (a b : Z) : list Z :=
  map (fun k => a + Z.of_nat k) (seq 0 (Z.to_nat (b - a))).

(** ** Text *)

Module PyStr.

Local Open Scope string_scope.

Definition comma : ascii := ","%char.
Definition newline : ascii := "010"%char.

(** [str(n)] for an integer, as an f-string renders it. *)
Definition str_int (n : Z) : string :=
  NilEmpty.string_of_int (Z.to_int n).

Fixpoint concat_all (xs : list string) : string :=
  match xs with
  | [] => EmptyString
  | x :: xs' => x ++ concat_all xs'
  end.

Fixpoint occurs (c : ascii) (s : string) : bool :=
  match s with
  | EmptyString => false
  | String a s' => Ascii.eqb a c || occurs c s'
  end.

Fixpoint count_char (c : ascii) (s : string) : nat :=
  match s with
  | EmptyString => O
  | String a s' => ((if Ascii.eqb a c then 1 else 0) + count_char c s')%nat
  end.

(** [s.split(sep)] for a one-character separator. *)
Fixpoint split_on (sep : ascii) (s : string) : list string :=
  match s with
  | EmptyString => [EmptyString]
  | String a s' =>
      if Ascii.eqb a sep then EmptyString :: split_on sep s'
      else match split_on sep s' with
           | [] => [String a EmptyString]
           | f :: fs => String a f :: fs
           end
  end.

(** The newline-terminated lines of a text (a final empty piece is no line). *)
Definition lines (s : string) : list string :=
  match List.rev (split_on newline s) with
  | EmptyString :: r => List.rev r
  | _ => split_on newline s
  end.

End PyStr.

(** ** Identifiers: [uuid.uuid4] and [str(UUID)] *)

Module PyUuid.

(** A [UUID] object is its 128-bit integer; equality of UUIDs is equality
    of these integers. *)
Abbreviation UUID := Z (only parsing).

(** [UUID(bytes=b, version=4)]: the RFC 4122 variant and the version
    number are forced into the 128 random bits. *)
Definition with_version4 (raw : Z) : UUID :=
  let i0 := raw mod 2 ^ 128 in
  let i1 := Z.land i0 (Z.lnot (Z.shiftl 49152 48)) in
  let i2 := Z.lor i1 (Z.shiftl 32768 48) in
  let i3 := Z.land i2 (Z.lnot (Z.shiftl 61440 64)) in
  Z.lor i3 (Z.shiftl 4 76).

Definition hex_digit (d : Z) : ascii :=
  match d with
  | 0 => "0" | 1 => "1" | 2 => "2" | 3 => "3" | 4 => "4"
  | 5 => "5" | 6 => "6" | 7 => "7" | 8 => "8" | 9 => "9"
  | 10 => "a" | 11 => "b" | 12 => "c" | 13 => "d" | 14 => "e"
  | _ => "f"
  end%char.

(** Hex digits [from, from + len) of ['%032x' % u], counted from the left. *)
Definition hex_slice (u : UUID) (from len : nat) : string :=
  string_of_list_ascii
    (map (fun i => hex_digit (Z.land (Z.shiftr u (4 * (31 - Z.of_nat i))) 15))
         (seq from len)).

(** [str(u)]: 8-4-4-4-12 hyphenated lower-case hex. *)
Definition str (u : UUID) : string :=
  (hex_slice u 0 8 ++ "-" ++ hex_slice u 8 4 ++ "-" ++ hex_slice u 12 4
   ++ "-" ++ hex_slice u 16 4 ++ "-" ++ hex_slice u 20 12)%string.

End PyUuid.

(** ** Floats: IEEE 754 binary64, after the Standard Library's [SpecFloat] *)

Module PyFloat.

Definition prec : Z := 53.
Definition emax : Z := 1024.

Abbreviation float := spec_float (only parsing).

(** Conversion of an integer to the nearest double (ties to even), as C
    does for [(double)n]; beyond the finite range it yields an infinity. *)
Definition of_Z (n : Z) : float := binary_normalize prec emax n 0 false.

(** [float(n)] for a Python integer. *)
Definition float_of_int (n : Z) : result float :=
  match of_Z n with
  | S754_infinity _ => Raise OverflowError
  | x => Ok x
  end.

Definition add : float -> float -> float := SFadd prec emax.
Definition mul : float -> float -> float := SFmul prec emax.
Definition div : float -> float -> float := SFdiv prec emax.

(** [a / b] on Python integers: the correctly rounded quotient. *)
Definition int_true_divide (a b : Z) : result float :=
  if b =? 0 then Raise ZeroDivisionError
  else if a =? 0 then Ok (S754_zero (b <? 0))
  else
    let '(mz, ez, lz) :=
      SFdiv_core_binary prec emax (Z.abs a) 0 (Z.abs b) 0 in
    match binary_round_aux prec emax (xorb (a <? 0) (b <? 0)) mz ez lz with
    | S754_infinity _ => Raise OverflowError
    | x => Ok x
    end.

(** [x * n] and [n + x] with an integer operand: the integer is converted
    first. *)
Definition mul_int (x : float) (n : Z) : result float :=
  y <- float_of_int n ;; Ok (mul x y).

Definition int_mul (n : Z) (x : float) : result float :=
  y <- float_of_int n ;; Ok (mul y x).

Definition int_add (n : Z) (x : float) : result float :=
  y <- float_of_int n ;; Ok (add y x).

(** [int(x)]: truncation toward zero. *)
Definition int_of_float (x : float) : result Z :=
  match x with
  | S754_zero _ => Ok 0
  | S754_infinity _ => Raise OverflowError
  | S754_nan => Raise ValueError
  | S754_finite s m e =>
      Ok (cond_Zopp s (if 0 <=? e then Zpos m * 2 ^ e else Zpos m / 2 ^ (- e)))
  end.

Definition zero : float := S754_zero false.
Definition hundred : float := of_Z 100.

(** [0 <= x < 100] as the comparison of doubles. *)
Definition in_0_100 (x : float) : bool :=
  SFleb zero x && SFltb x hundred.

Local Open Scope string_scope.

Fixpoint zeros (n : nat) : string :=
  match n with
  | O => EmptyString
  | S n' => String "0" (zeros n')
  end.

(** Removal of a decimal point that ends the text. *)
Fixpoint strip_dot (s : string) : string :=
  match s with
  | EmptyString => EmptyString
  | String c EmptyString => if Ascii.eqb c "." then EmptyString else s
  | String c s' => String c (strip_dot s')
  end.

(** [sprintf("%+.02d", e)]. *)
Definition exp_text (e : Z) : string :=
  (if (e <? 0)%Z then "-" else "+") ++
  (if (Z.abs e <? 10)%Z then "0" else "") ++ PyStr.str_int (Z.abs e).

(** The layout step of [repr(x)] ([format_float_short] with code 'r'):
    [digits] are the shortest round-tripping decimal digits of [|x|] and
    [decpt] the position of the decimal point relative to them. *)
Definition format_short (negative : bool) (digits : uint) (decpt : Z)
  : string :=
  let d := NilEmpty.string_of_uint digits in
  let len := Z.of_nat (String.length d) in
  let use_exp := ((decpt <=? -4) || (16 <? decpt))%Z in
  let dp := if use_exp then 1 else decpt in
  let vend :=
    if use_exp then Z.max len dp
    else if (dp <? len)%Z then len else dp + 1 in
  let left := if (dp <=? 0)%Z then "0." ++ zeros (Z.to_nat (- dp)) else "" in
  let mid :=
    if ((0 <? dp) && (dp <=? len))%Z
    then substring 0 (Z.to_nat dp) d ++ "." ++
         substring (Z.to_nat dp) (Z.to_nat (len - dp)) d
    else d in
  let right :=
    if (len <? dp)%Z
    then zeros (Z.to_nat (dp - len)) ++ "." ++ zeros (Z.to_nat (vend - dp))
    else zeros (Z.to_nat (vend - len)) in
  (if negative then "-" else "") ++
  strip_dot (left ++ mid ++ right) ++
  (if use_exp then "e" ++ exp_text (decpt - 1) else "").

Definition is_negative (x : float) : bool :=
  match x with
  | S754_zero s | S754_infinity s | S754_finite s _ _ => s
  | S754_nan => false
  end.

(** [repr(x)], which is also what an f-string writes for a float.  [dtoa]
    is the interpreter's shortest-digits routine. *)
Definition repr (dtoa : float -> uint * Z) (x : float) : string :=
  match x with
  | S754_nan => "nan"
  | S754_infinity s => (if s then "-" else "") ++ "inf"
  | _ => let '(digits, decpt) := dtoa x in
         format_short (is_negative x) digits decpt
  end.

End PyFloat.

(** ** [random.random] and [random.uniform] *)

Module PyRandom.

(** [random()]: 53 random bits [k] out of two 32-bit outputs of the
    generator, returned as [k * 2^-53]. *)
Definition random_bits (w1 w2 : Z) : Z :=
  Z.shiftr (w1 mod 2 ^ 32) 5 * 67108864 + Z.shiftr (w2 mod 2 ^ 32) 6.

Definition random (w1 w2 : Z) : PyFloat.float :=
  binary_normalize PyFloat.prec PyFloat.emax (random_bits w1 w2) (-53) false.

(** [uniform(a, b)] is [a + (b - a) * self.random()] with integer ends. *)
Definition uniform (a b : Z) (w1 w2 : Z) : result PyFloat.float :=
  p <- PyFloat.int_mul (b - a) (random w1 w2) ;;
  PyFloat.int_add a p.

End PyRandom.

(** ** [datetime] and [timedelta] *)

Module PyDatetime.

Definition us_per_second : Z := 1000000.
Definition us_per_day : Z := 86400 * us_per_second.

(** A [timedelta] is its exact length in microseconds; the constructor and
    the arithmetic refuse a magnitude above 999999999 days. *)
Abbreviation timedelta := Z (only parsing).

Definition max_delta_days : Z := 999999999.

Definition check_delta (us : Z) : result timedelta :=
  let days := us / us_per_day in
  if (- max_delta_days <=? days) && (days <=? max_delta_days)
  then Ok us else Raise OverflowError.

Definition timedelta_days (d : Z) : result timedelta :=
  check_delta (d * us_per_day).

Definition timedelta_minutes (m : Z) : result timedelta :=
  check_delta (m * 60 * us_per_second).

(** [i * td]. *)
Definition int_mul_delta (i : Z) (td : timedelta) : result timedelta :=
  check_delta (i * td).

(** A naive [datetime] is the number of microseconds of wall-clock time
    since 0001-01-01T00:00:00; it must stay within the years 1..9999. *)
Abbreviation datetime := Z (only parsing).

Definition max_ordinal : Z := 3652059.

Definition valid_datetime (t : datetime) : Prop :=
  0 <= t < max_ordinal * us_per_day.

Definition check_datetime (t : Z) : result datetime :=
  if (0 <=? t) && (t <? max_ordinal * us_per_day)
  then Ok t else Raise OverflowError.

Definition sub_delta (t : datetime) (td : timedelta) : result datetime :=
  check_datetime (t - td).

Definition add_delta (t : datetime) (td : timedelta) : result datetime :=
  check_datetime (t + td).

(** Seconds between 0001-01-01 and 1970-01-01. *)
Definition epoch_seconds : Z := 719162 * 86400.

(** [t.timestamp()] of a naive datetime: the platform turns the wall-clock
    second into POSIX seconds ([local_to_seconds], which may raise), and
    the microseconds are added as a double. *)
Definition timestamp (local_to_seconds : Z -> result Z) (t : datetime)
  : result PyFloat.float :=
  s <- local_to_seconds (t / us_per_second) ;;
  Ok (PyFloat.add (PyFloat.of_Z s)
        (PyFloat.div (PyFloat.of_Z (t mod us_per_second))
                     (PyFloat.of_Z us_per_second))).

(** The platform conversion for a zone at a fixed offset of [off] seconds
    east of UTC.  CPython reads the wall-clock second as if it were UTC,
    asks the zone for the local time there and again one day earlier, and
    raises [ValueError] when one of these falls outside the years 1..9999. *)
Definition fixed_offset_zone (off : Z) (wall : Z) : result Z :=
  if (wall + off <? 0) || (max_ordinal * 86400 <=? wall + off)
     || (wall - 86400 <? 0)
  then Raise ValueError
  else Ok (wall - off - epoch_seconds).

End PyDatetime.

(** ** The script *)

Import PyStr PyUuid PyDatetime.

(** The module-level constants of the script (lines 14-19). *)
Record config : Type := {
  num_channels : Z;
  num_subtopic : Z;            (* subtopics per channel *)
  num_publisher : Z;           (* publishers per subtopic *)
  num_metrics : Z;             (* metrics per publisher *)
  last_num_days : Z;
  data_interval_minutes : Z
}.

Definition script_config : config :=
  {| num_channels := 100; num_subtopic := 1; num_publisher := 3;
     num_metrics := 10; last_num_days := 30; data_interval_minutes := 15 |}.

(** What a run reads from outside the script. *)
Record world : Type := {
  now : datetime;                       (* [datetime.now()] *)
  local_to_seconds : Z -> result Z;     (* the platform's local time zone *)
  urandom : nat -> Z;                   (* n-th [os.urandom(16)], big-endian *)
  genrand : nat -> Z;                   (* n-th 32-bit word of the twister *)
  dtoa : PyFloat.float -> uint * Z      (* shortest digits of a double *)
}.

(** The identifier returned by the [n]-th call of [uuid.uuid4()]. *)
Definition uuid4 (w : world) (n : nat) : UUID := with_version4 (urandom w n).

(** One element of [rows]: the dict with keys channel, subtopic, publisher
    and name. *)
Record entity : Type := {
  channel : UUID;
  subtopic : string;
  publisher : UUID;
  name : string
}.

(** *** EntityCatalog (lines 28-42) *)

(** The list [rows] under construction and the number of [uuid4] calls
    made so far. *)
Record cat_state : Type := { rows : list entity; drawn : nat }.

Definition metric_loop (cfg : config) (channel_id : UUID) (sub : string)
  (publisher_id : UUID) (st : cat_state) : cat_state :=
  for_pure (py_range 1 (num_metrics cfg + 1))
    (fun name_idx st =>
       let nm := ("metric_" ++ str_int name_idx)%string in
       {| rows := rows st ++
                  [ {| channel := channel_id; subtopic := sub;
                       publisher := publisher_id; name := nm |} ];
          drawn := drawn st |})
    st.

Definition publisher_loop (cfg : config) (w : world) (channel_id : UUID)
  (sub : string) (st : cat_state) : cat_state :=
  for_pure (py_range 1 (num_publisher cfg + 1))
    (fun _publisher_idx st =>
       let publisher_id := uuid4 w (drawn st) in
       metric_loop cfg channel_id sub publisher_id
         {| rows := rows st; drawn := S (drawn st) |})
    st.

Definition subtopic_loop (cfg : config) (w : world) (channel_id : UUID)
  (st : cat_state) : cat_state :=
  for_pure (py_range 1 (num_subtopic cfg + 1))
    (fun subtopic_idx st =>
       let sub := ("subtopic_" ++ str_int subtopic_idx)%string in
       publisher_loop cfg w channel_id sub st)
    st.

Definition channel_loop (cfg : config) (w : world) (st : cat_state)
  : cat_state :=
  for_pure (py_range 1 (num_channels cfg + 1))
    (fun _channel_idx st =>
       let channel_id := uuid4 w (drawn st) in
       subtopic_loop cfg w channel_id
         {| rows := rows st; drawn := S (drawn st) |})
    st.

Definition EntityCatalog (cfg : config) (w : world) : list entity :=
  rows (channel_loop cfg w {| rows := []; drawn := O |}).

(** Number of [uuid4] calls the catalog makes. *)
Definition uuid_calls (cfg : config) (w : world) : nat :=
  drawn (channel_loop cfg w {| rows := []; drawn := O |}).

(** *** TimeGrid (lines 46-48) *)

Record time_grid : Type := {
  start_time : datetime;
  interval : timedelta;
  num_intervals : Z
}.

Definition TimeGrid (cfg : config) (w : world) : result time_grid :=
  d <- timedelta_days (last_num_days cfg) ;;
  start <- sub_delta (now w) d ;;
  iv <- timedelta_minutes (data_interval_minutes cfg) ;;
  q <- PyFloat.int_true_divide (last_num_days cfg * 24 * 60)
         (data_interval_minutes cfg) ;;
  n <- PyFloat.int_of_float q ;;
  Ok {| start_time := start; interval := iv; num_intervals := n |}.

(** Lines 62-63: the [i]-th timestamp in integer nanoseconds. *)
Definition timestamp_ns (w : world) (g : time_grid) (i : Z) : result Z :=
  d <- int_mul_delta i (interval g) ;;
  t <- add_delta (start_time g) d ;;
  x <- timestamp (local_to_seconds w) t ;;
  y <- PyFloat.mul_int x 1000000000 ;;
  PyFloat.int_of_float y.

(** *** RowEmitter (lines 58-66) *)

Definition header : string :=
  "time,channel,subtopic,publisher,protocol,name,unit,value".

Definition nl : string := String newline EmptyString.

(** The f-string of line 66. *)
Definition row_line (w : world) (ts : Z) (row : entity) (value : PyFloat.float)
  : string :=
  (str_int ts ++ "," ++ PyUuid.str (channel row) ++ "," ++ subtopic row
   ++ "," ++ PyUuid.str (publisher row) ++ ",mqtt," ++ name row
   ++ ",unit," ++ PyFloat.repr (dtoa w) value ++ nl)%string.

(** What has been written to the file, and how many words the random
    generator has produced. *)
Record sink : Type := { file : string; words : nat }.

(** [value = random.uniform(0, 100)] for a sink that has consumed [n]
    generator words. *)
Definition sample (w : world) (n : nat) : result PyFloat.float :=
  PyRandom.uniform 0 100 (genrand w n) (genrand w (S n)).

Definition emit_rows (w : world) (catalog : list entity) (ts : Z) (s : sink)
  : result sink :=
  for_each catalog
    (fun row s =>
       value <- sample w (words s) ;;
       Ok {| file := (file s ++ row_line w ts row value)%string;
             words := S (S (words s)) |})
    s.

Definition RowEmitter (w : world) (g : time_grid) (catalog : list entity)
  : result sink :=
  for_each (py_range 0 (num_intervals g))
    (fun i s => ts <- timestamp_ns w g i ;; emit_rows w catalog ts s)
    {| file := (header ++ nl)%string; words := O |}.

(** The whole script: the text of [messages.csv] after a run that raised
    nothing.  An exception of TimeGrid comes before the file is opened. *)
Definition run (cfg : config) (w : world) : result string :=
  let catalog := EntityCatalog cfg w in
  g <- TimeGrid cfg w ;;
  s <- RowEmitter w g catalog ;;
  Ok (file s).

(** ** Closed forms used by the proofs *)

(** Sizes of the four ranges, as list lengths. *)
Definition nC (cfg : config) : nat := Z.to_nat (num_channels cfg).
Definition nS (cfg : config) : nat := Z.to_nat (num_subtopic cfg).
Definition nP (cfg : config) : nat := Z.to_nat (num_publisher cfg).
Definition nM (cfg : config) : nat := Z.to_nat (num_metrics cfg).

Definition subtopic_label (s : nat) : string :=
  ("subtopic_" ++ str_int (1 + Z.of_nat s))%string.

Definition metric_label (m : nat) : string :=
  ("metric_" ++ str_int (1 + Z.of_nat m))%string.

(** Index of the [uuid4] call that names channel [c], and of the one that
    names publisher [p] of subtopic [s] of channel [c] (all 0-based). *)
Definition channel_call (cfg : config) (c : nat) : nat :=
  (c * (1 + nS cfg * nP cfg))%nat.

Definition publisher_call (cfg : config) (c s p : nat) : nat :=
  (channel_call cfg c + 1 + s * nP cfg + p)%nat.

Definition entity_at (cfg : config) (w : world) (c s p m : nat) : entity :=
  {| channel := uuid4 w (channel_call cfg c);
     subtopic := subtopic_label s;
     publisher := uuid4 w (publisher_call cfg c s p);
     name := metric_label m |}.

Definition publisher_block (cfg : config) (w : world) (c s p : nat)
  : list entity :=
  map (entity_at cfg w c s p) (seq 0 (nM cfg)).

Definition subtopic_block (cfg : config) (w : world) (c s : nat)
  : list entity :=
  flat_map (publisher_block cfg w c s) (seq 0 (nP cfg)).

Definition channel_block (cfg : config) (w : world) (c : nat) : list entity :=
  flat_map (subtopic_block cfg w c) (seq 0 (nS cfg)).

Definition catalog_spec (cfg : config) (w : world) : list entity :=
  flat_map (channel_block cfg w) (seq 0 (nC cfg)).

(** The key of the spec: all four fields. *)
Definition key (e : entity) : UUID * string * UUID * string :=
  (channel e, subtopic e, publisher e, name e).

(** Every [uuid4] call of the catalog returned a value no earlier call
    returned. *)
Definition fresh_identifiers (cfg : config) (w : world) : Prop :=
  NoDup (map (uuid4 w) (seq 0 (uuid_calls cfg w))).

(** Number of distinct values in a list of identifiers. *)
Definition distinct_count (l : list UUID) : nat :=
  List.length (nodup Z.eq_dec l).

(** *** The emitted rows, as data *)

(** The value drawn by the sample that starts at generator word [n]. *)
Definition sample_value (w : world) (n : nat) : PyFloat.float :=
  PyFloat.add PyFloat.zero
    (PyFloat.mul PyFloat.hundred
       (PyRandom.random (genrand w n) (genrand w (S n)))).

(** One emitted row: its timestamp, its entity and its value. *)
Definition message : Type := Z * entity * PyFloat.float.

Definition message_time (r : message) : Z := fst (fst r).
Definition message_entity (r : message) : entity := snd (fst r).
Definition message_value (r : message) : PyFloat.float := snd r.

(** The rows of one timestamp, in catalog order, when [n] generator words
    have been consumed. *)
Fixpoint group_rows (w : world) (ts : Z) (catalog : list entity) (n : nat)
  : list message :=
  match catalog with
  | [] => []
  | e :: rest => (ts, e, sample_value w n) :: group_rows w ts rest (S (S n))
  end.

Fixpoint all_rows (w : world) (catalog : list entity) (tss : list Z) (n : nat)
  : list message :=
  match tss with
  | [] => []
  | ts :: rest =>
      group_rows w ts catalog n
      ++ all_rows w catalog rest (n + 2 * List.length catalog)
  end.

Definition row_fields (w : world) (r : message) : list string :=
  [ str_int (message_time r); PyUuid.str (channel (message_entity r));
    subtopic (message_entity r); PyUuid.str (publisher (message_entity r));
    "mqtt"%string; name (message_entity r); "unit"%string;
    PyFloat.repr (dtoa w) (message_value r) ].

Fixpoint join_commas (fs : list string) : string :=
  match fs with
  | [] => EmptyString
  | [f] => f
  | f :: rest => (f ++ String comma (join_commas rest))%string
  end.

Definition row_text (w : world) (r : message) : string :=
  join_commas (row_fields w r).

Fixpoint map_result {A B : Type} (f : A -> result B) (xs : list A)
  : result (list B) :=
  match xs with
  | [] => Ok []
  | x :: rest => y <- f x ;; ys <- map_result f rest ;; Ok (y :: ys)
  end.

(** The emitted timestamps, in loop order. *)
Definition grid_ns (w : world) (g : time_grid) : result (list Z) :=
  map_result (timestamp_ns w g) (py_range 0 (num_intervals g)).

(** *** Reading the file back *)

Definition header_line (f : string) : string := hd EmptyString (lines f).
Definition data_lines (f : string) : list string := tl (lines f).
Definition fields (line : string) : list string := split_on comma line.
Definition field (k : nat) (line : string) : string :=
  nth k (fields line) EmptyString.

(** The (subtopic, name) pair of a data line. *)
Definition label_pair (line : string) : string * string :=
  (field 2 line, field 5 line).

(** ** A concrete world and configuration for examples *)

(** Digits of [|x|] cut after the sixth decimal place (not the shortest
    digits, but a legal digit string for the layout step). *)
Definition demo_dtoa (x : PyFloat.float) : uint * Z :=
  match x with
  | S754_finite _ m e =>
      let n := if 0 <=? e then Zpos m * 2 ^ e * 10 ^ 6
               else Zpos m * 10 ^ 6 / 2 ^ (- e) in
      if n =? 0 then (D0 Nil, 1)
      else let d := N.to_uint (Z.to_N n) in
           (d, Z.of_nat (nb_digits d) - 6)
  | _ => (D0 Nil, 1)
  end.

(** UTC; the clock reads 2023-11-15T22:13:20.000001. *)
Definition demo_world : world :=
  {| now := (1700000000 + 86400 + epoch_seconds) * us_per_second + 1;
     local_to_seconds := fixed_offset_zone 0;
     urandom := fun n => 1000 + Z.of_nat n;
     genrand := fun n => 1234567891 * Z.of_nat n + 17;
     dtoa := demo_dtoa |}.

Definition demo_config : config :=
  {| num_channels := 2; num_subtopic := 1; num_publisher := 2;
     num_metrics := 2; last_num_days := 1; data_interval_minutes := 720 |}.

(** The time grid and the file of the example run. *)
Definition demo_grid : time_grid :=
  Eval vm_compute in
    match TimeGrid demo_config demo_world with
    | Ok g => g
    | Raise _ => {| start_time := 0; interval := 0; num_intervals := 0 |}
    end.

Definition demo_file : string :=
  Eval vm_compute in
    match run demo_config demo_world with
    | Ok f => f
    | Raise _ => EmptyString
    end.

(** A second world: another instant, zone, entropy and generator. *)
Definition demo_world2 : world :=
  {| now := (1750000000 + epoch_seconds) * us_per_second + 250000;
     local_to_seconds := fixed_offset_zone 3600;
     urandom := fun n => 2 ^ 100 + 7 * Z.of_nat n;
     genrand := fun n => 987654321 * Z.of_nat n + 5;
     dtoa := demo_dtoa |}.

Definition demo_file2 : string :=
  Eval vm_compute in
    match run demo_config demo_world2 with
    | Ok f => f
    | Raise _ => EmptyString
    end.


(** * Properties *)

(** ** Loops and lists *)

Lemma for_pure_app {A S : Type} (xs ys : list A) (body : A -> S -> S) (s : S) :
  for_pure (xs ++ ys) body s = for_pure ys body (for_pure xs body s).
Proof.
  revert s; induction xs as [|x xs IH]; intros s; simpl; auto.
Qed.

Lemma py_range_1 (n : Z) :
  py_range 1 (n + 1) = map (fun k => 1 + Z.of_nat k) (seq 0 (Z.to_nat n)).
Proof.
  unfold py_range. replace (n + 1 - 1) with n by lia. reflexivity.
Qed.

Lemma py_range_0 (n : Z) :
  py_range 0 n = map Z.of_nat (seq 0 (Z.to_nat n)).
Proof.
  unfold py_range. rewrite Z.sub_0_r. apply map_ext. intros; lia.
Qed.

Lemma flat_map_ext_in {A B : Type} (f g : A -> list B) (l : list A) :
  (forall a, In a l -> f a = g a) -> flat_map f l = flat_map g l.
Proof.
  induction l as [|x l IH]; intros H; simpl; auto.
  rewrite H by (left; reflexivity). f_equal. apply IH.
  intros a Ha; apply H; right; exact Ha.
Qed.

(** A loop over [1..n] whose body appends a block that depends on the
    index and on the call counter, and advances the counter by [k]. *)
Lemma for_pure_blocks (body : Z -> cat_state -> cat_state)
  (blk : nat -> nat -> list entity) (k : nat) :
  (forall j st, body (1 + Z.of_nat j) st =
                {| rows := rows st ++ blk j (drawn st);
                   drawn := drawn st + k |}) ->
  forall n a st,
    for_pure (map (fun j => 1 + Z.of_nat j) (seq a n)) body st =
    {| rows := rows st ++
               flat_map (fun j => blk j (drawn st + (j - a) * k)) (seq a n);
       drawn := drawn st + n * k |}%nat.
Proof.
  intros Hbody n; induction n as [|n IH]; intros a st;
    cbn [for_pure map seq flat_map].
  - rewrite app_nil_r, Nat.add_0_r. destruct st; reflexivity.
  - rewrite Hbody, IH; cbn [rows drawn]. f_equal.
    + rewrite <- app_assoc. f_equal. f_equal.
      * f_equal. lia.
      * apply flat_map_ext_in. intros j Hj. apply in_seq in Hj.
        f_equal. replace (j - a)%nat with (S (j - S a)) by lia. lia.
    + lia.
Qed.

Lemma flat_map_singleton {A B : Type} (f : A -> B) (l : list A) :
  flat_map (fun x => [f x]) l = map f l.
Proof.
  induction l as [|x l IH]; simpl; congruence.
Qed.

(** ** EntityCatalog: the loops compute the closed form *)

Definition mk_entity (ch : UUID) (sub : string) (pub : UUID) (m : nat)
  : entity :=
  {| channel := ch; subtopic := sub; publisher := pub;
     name := metric_label m |}.

Lemma metric_loop_spec cfg ch sub pub st :
  metric_loop cfg ch sub pub st =
  {| rows := rows st ++ map (mk_entity ch sub pub) (seq 0 (nM cfg));
     drawn := drawn st |}.
Proof.
  unfold metric_loop. rewrite py_range_1.
  rewrite (for_pure_blocks _ (fun m _ => [mk_entity ch sub pub m]) 0).
  - rewrite flat_map_singleton. f_equal. fold (nM cfg). lia.
  - intros j s. rewrite Nat.add_0_r. reflexivity.
Qed.

Lemma publisher_loop_spec cfg w ch sub st :
  publisher_loop cfg w ch sub st =
  {| rows := rows st ++
       flat_map (fun p => map (mk_entity ch sub (uuid4 w (drawn st + p)))
                              (seq 0 (nM cfg)))
                (seq 0 (nP cfg));
     drawn := drawn st + nP cfg |}%nat.
Proof.
  unfold publisher_loop. rewrite py_range_1.
  rewrite (for_pure_blocks _
             (fun _ d => map (mk_entity ch sub (uuid4 w d)) (seq 0 (nM cfg))) 1).
  - fold (nP cfg). f_equal.
    + f_equal. apply flat_map_ext_in. intros p _.
      do 3 f_equal. lia.
    + lia.
  - intros j s. rewrite metric_loop_spec. cbn [rows drawn].
    f_equal. lia.
Qed.

Lemma subtopic_loop_spec cfg w ch st :
  subtopic_loop cfg w ch st =
  {| rows := rows st ++
       flat_map (fun s =>
         flat_map (fun p =>
           map (mk_entity ch (subtopic_label s)
                  (uuid4 w (drawn st + s * nP cfg + p)))
               (seq 0 (nM cfg)))
           (seq 0 (nP cfg)))
         (seq 0 (nS cfg));
     drawn := drawn st + nS cfg * nP cfg |}%nat.
Proof.
  unfold subtopic_loop. rewrite py_range_1.
  rewrite (for_pure_blocks _
             (fun s d => flat_map (fun p =>
                map (mk_entity ch (subtopic_label s) (uuid4 w (d + p)))
                    (seq 0 (nM cfg))) (seq 0 (nP cfg))) (nP cfg)).
  - fold (nS cfg). f_equal. f_equal. apply flat_map_ext_in. intros s _.
    apply flat_map_ext_in. intros p _. do 3 f_equal. lia.
  - intros j s. rewrite publisher_loop_spec. reflexivity.
Qed.

Lemma channel_loop_spec cfg w st :
  drawn st = O ->
  channel_loop cfg w st =
  {| rows := rows st ++ catalog_spec cfg w;
     drawn := nC cfg * (1 + nS cfg * nP cfg) |}%nat.
Proof.
  intros Hd. unfold channel_loop. rewrite py_range_1.
  rewrite (for_pure_blocks _
             (fun _ d => flat_map (fun s =>
                flat_map (fun p =>
                  map (mk_entity (uuid4 w d) (subtopic_label s)
                         (uuid4 w (S d + s * nP cfg + p)))
                      (seq 0 (nM cfg)))
                  (seq 0 (nP cfg)))
                (seq 0 (nS cfg))) (1 + nS cfg * nP cfg)).
  - fold (nC cfg). rewrite Hd. f_equal. f_equal.
    unfold catalog_spec. apply flat_map_ext_in. intros c _.
    unfold channel_block. apply flat_map_ext_in. intros s _.
    unfold subtopic_block. apply flat_map_ext_in. intros p _.
    unfold publisher_block. apply map_ext. intros m.
    unfold mk_entity, entity_at, publisher_call, channel_call.
    f_equal; f_equal; lia.
  - intros j s. rewrite subtopic_loop_spec. cbn [rows drawn].
    f_equal. lia.
Qed.

Lemma EntityCatalog_spec cfg w : EntityCatalog cfg w = catalog_spec cfg w.
Proof.
  unfold EntityCatalog. rewrite channel_loop_spec by reflexivity.
  reflexivity.
Qed.

Lemma uuid_calls_spec cfg w :
  uuid_calls cfg w = (nC cfg * (1 + nS cfg * nP cfg))%nat.
Proof.
  unfold uuid_calls. rewrite channel_loop_spec by reflexivity. reflexivity.
Qed.

(** ** Labels *)

Lemma str_int_inj (a b : Z) : str_int a = str_int b -> a = b.
Proof.
  unfold str_int. intros H.
  apply DecimalZ.to_int_inj.
  assert (E : Some (Z.to_int a) = Some (Z.to_int b))
    by (rewrite <- !NilEmpty.isi; rewrite H; reflexivity).
  injection E; auto.
Qed.

Lemma append_inv_head (p a b : string) :
  (p ++ a)%string = (p ++ b)%string -> a = b.
Proof.
  induction p as [|c p IH]; simpl; intros H; auto.
  injection H as H. auto.
Qed.

Lemma subtopic_label_inj (s s' : nat) :
  subtopic_label s = subtopic_label s' -> s = s'.
Proof.
  unfold subtopic_label. intros H.
  apply append_inv_head, str_int_inj in H. lia.
Qed.

Lemma metric_label_inj (m m' : nat) :
  metric_label m = metric_label m' -> m = m'.
Proof.
  unfold metric_label. intros H.
  apply append_inv_head, str_int_inj in H. lia.
Qed.

(** ** Size of the catalog *)

Lemma length_publisher_block cfg w c s p :
  List.length (publisher_block cfg w c s p) = nM cfg.
Proof.
  unfold publisher_block. rewrite length_map, length_seq. reflexivity.
Qed.

Lemma length_subtopic_block cfg w c s :
  List.length (subtopic_block cfg w c s) = (nP cfg * nM cfg)%nat.
Proof.
  unfold subtopic_block.
  rewrite (flat_map_constant_length (c := nM cfg)), length_seq; auto.
  intros; apply length_publisher_block.
Qed.

Lemma length_channel_block cfg w c :
  List.length (channel_block cfg w c) = (nS cfg * (nP cfg * nM cfg))%nat.
Proof.
  unfold channel_block.
  rewrite (flat_map_constant_length (c := (nP cfg * nM cfg)%nat)), length_seq;
    auto.
  intros; apply length_subtopic_block.
Qed.

Lemma length_catalog_spec cfg w :
  List.length (catalog_spec cfg w)
  = (nC cfg * (nS cfg * (nP cfg * nM cfg)))%nat.
Proof.
  unfold catalog_spec.
  rewrite (flat_map_constant_length (c := (nS cfg * (nP cfg * nM cfg))%nat)),
    length_seq; auto.
  intros; apply length_channel_block.
Qed.

(** ** Membership in the blocks *)

Lemma in_publisher_block cfg w c s p e :
  In e (publisher_block cfg w c s p) <->
  exists m, (m < nM cfg)%nat /\ e = entity_at cfg w c s p m.
Proof.
  unfold publisher_block. rewrite in_map_iff. split.
  - intros (m & <- & Hm). apply in_seq in Hm. exists m. split; [lia|auto].
  - intros (m & Hm & ->). exists m. split; auto. apply in_seq. lia.
Qed.

Lemma in_subtopic_block cfg w c s e :
  In e (subtopic_block cfg w c s) <->
  exists p m, (p < nP cfg)%nat /\ (m < nM cfg)%nat /\
              e = entity_at cfg w c s p m.
Proof.
  unfold subtopic_block. rewrite in_flat_map. split.
  - intros (p & Hp & He). apply in_seq in Hp.
    apply in_publisher_block in He as (m & Hm & ->).
    exists p, m. repeat split; auto; lia.
  - intros (p & m & Hp & Hm & ->). exists p. split.
    + apply in_seq; lia.
    + apply in_publisher_block. exists m; auto.
Qed.

Lemma in_channel_block cfg w c e :
  In e (channel_block cfg w c) <->
  exists s p m, (s < nS cfg)%nat /\ (p < nP cfg)%nat /\ (m < nM cfg)%nat /\
                e = entity_at cfg w c s p m.
Proof.
  unfold channel_block. rewrite in_flat_map. split.
  - intros (s & Hs & He). apply in_seq in Hs.
    apply in_subtopic_block in He as (p & m & Hp & Hm & ->).
    exists s, p, m. repeat split; auto; lia.
  - intros (s & p & m & Hs & Hp & Hm & ->). exists s. split.
    + apply in_seq; lia.
    + apply in_subtopic_block. exists p, m; auto.
Qed.

Lemma in_catalog_spec cfg w e :
  In e (catalog_spec cfg w) <->
  exists c s p m, (c < nC cfg)%nat /\ (s < nS cfg)%nat /\
                  (p < nP cfg)%nat /\ (m < nM cfg)%nat /\
                  e = entity_at cfg w c s p m.
Proof.
  unfold catalog_spec. rewrite in_flat_map. split.
  - intros (c & Hc & He). apply in_seq in Hc.
    apply in_channel_block in He as (s & p & m & Hs & Hp & Hm & ->).
    exists c, s, p, m. repeat split; auto; lia.
  - intros (c & s & p & m & Hc & Hs & Hp & Hm & ->). exists c. split.
    + apply in_seq; lia.
    + apply in_channel_block. exists s, p, m; auto.
Qed.

(** ** Fresh identifiers *)

Lemma fresh_inj cfg w i j :
  fresh_identifiers cfg w ->
  (i < uuid_calls cfg w)%nat -> (j < uuid_calls cfg w)%nat ->
  uuid4 w i = uuid4 w j -> i = j.
Proof.
  unfold fresh_identifiers. intros Hf Hi Hj E.
  rewrite (NoDup_nth _ 0) in Hf.
  rewrite length_map, length_seq in Hf.
  apply Hf; auto.
  rewrite !(nth_indep _ 0 (uuid4 w O)) by (rewrite length_map, length_seq; lia).
  rewrite !map_nth, !seq_nth by lia. exact E.
Qed.

Lemma channel_call_lt cfg c :
  (c < nC cfg)%nat ->
  (channel_call cfg c < nC cfg * (1 + nS cfg * nP cfg))%nat.
Proof.
  unfold channel_call. intros H. nia.
Qed.

Lemma publisher_call_lt cfg c s p :
  (c < nC cfg)%nat -> (s < nS cfg)%nat -> (p < nP cfg)%nat ->
  (publisher_call cfg c s p < nC cfg * (1 + nS cfg * nP cfg))%nat.
Proof.
  unfold publisher_call, channel_call. intros Hc Hs Hp.
  assert (s * nP cfg + p < nS cfg * nP cfg)%nat by nia. nia.
Qed.

Lemma channel_call_inj cfg c c' :
  channel_call cfg c = channel_call cfg c' -> c = c'.
Proof.
  unfold channel_call. intros H. nia.
Qed.

Lemma publisher_call_inj cfg c s p s' p' :
  (p < nP cfg)%nat -> (p' < nP cfg)%nat ->
  publisher_call cfg c s p = publisher_call cfg c s' p' -> s = s' /\ p = p'.
Proof.
  unfold publisher_call. intros Hp Hp' H.
  assert (s = s') by nia. subst. split; auto. lia.
Qed.

(** ** Distinctness of the catalog *)

Lemma NoDup_append {A : Type} (a b : list A) :
  NoDup a -> NoDup b -> (forall z, In z a -> ~ In z b) -> NoDup (a ++ b).
Proof.
  induction a as [|x a IH]; intros Ha Hb Hd; simpl; auto.
  inversion Ha as [|? ? Hx Ha']; subst. constructor.
  - rewrite in_app_iff. intros [H|H]; [contradiction|].
    apply (Hd x); [left; reflexivity|exact H].
  - apply IH; auto. intros z Hz. apply Hd. right; exact Hz.
Qed.

Lemma NoDup_flat_map {A B : Type} (f : A -> list B) (l : list A) :
  NoDup l ->
  (forall x, In x l -> NoDup (f x)) ->
  (forall x y z, In x l -> In y l -> In z (f x) -> In z (f y) -> x = y) ->
  NoDup (flat_map f l).
Proof.
  induction l as [|x l IH]; intros Hl Hf Hd; simpl; [constructor|].
  inversion Hl as [|? ? Hx Hl']; subst.
  apply NoDup_append.
  - apply Hf; left; reflexivity.
  - apply IH; auto.
    + intros y Hy; apply Hf; right; exact Hy.
    + intros a b z Ha Hb; apply Hd; right; assumption.
  - intros z Hz Hz'. apply in_flat_map in Hz' as (y & Hy & Hzy).
    assert (x = y) by (apply (Hd x y z); auto; [left; reflexivity|right; exact Hy]).
    subst; contradiction.
Qed.

Lemma NoDup_publisher_block cfg w c s p :
  NoDup (publisher_block cfg w c s p).
Proof.
  unfold publisher_block. apply NoDup_map_NoDup_ForallPairs.
  - intros m m' _ _ E. apply (f_equal name) in E. simpl in E.
    apply metric_label_inj; exact E.
  - apply seq_NoDup.
Qed.

Section FreshCatalog.

Variables (cfg : config) (w : world).
Hypothesis Hfresh : fresh_identifiers cfg w.

Lemma fresh_calls i j :
  (i < nC cfg * (1 + nS cfg * nP cfg))%nat ->
  (j < nC cfg * (1 + nS cfg * nP cfg))%nat ->
  uuid4 w i = uuid4 w j -> i = j.
Proof.
  rewrite <- (uuid_calls_spec cfg w). apply fresh_inj; exact Hfresh.
Qed.

Lemma NoDup_subtopic_block c s :
  (c < nC cfg)%nat -> (s < nS cfg)%nat -> NoDup (subtopic_block cfg w c s).
Proof.
  intros Hc Hs. unfold subtopic_block. apply NoDup_flat_map.
  - apply seq_NoDup.
  - intros; apply NoDup_publisher_block.
  - intros p p' e Hp Hp' He He'.
    apply in_seq in Hp, Hp'.
    apply in_publisher_block in He as (m & _ & ->).
    apply in_publisher_block in He' as (m' & _ & E).
    apply (f_equal publisher) in E. simpl in E.
    apply fresh_calls in E; try (apply publisher_call_lt; lia).
    apply publisher_call_inj in E; try lia.
Qed.

Lemma NoDup_channel_block c :
  (c < nC cfg)%nat -> NoDup (channel_block cfg w c).
Proof.
  intros Hc. unfold channel_block. apply NoDup_flat_map.
  - apply seq_NoDup.
  - intros s Hs. apply in_seq in Hs. apply NoDup_subtopic_block; lia.
  - intros s s' e _ _ He He'.
    apply in_subtopic_block in He as (p & m & _ & _ & ->).
    apply in_subtopic_block in He' as (p' & m' & _ & _ & E).
    apply (f_equal subtopic) in E. simpl in E.
    apply subtopic_label_inj; exact E.
Qed.

Lemma NoDup_catalog_spec : NoDup (catalog_spec cfg w).
Proof.
  unfold catalog_spec. apply NoDup_flat_map.
  - apply seq_NoDup.
  - intros c Hc. apply in_seq in Hc. apply NoDup_channel_block; lia.
  - intros c c' e Hc Hc' He He'.
    apply in_seq in Hc, Hc'.
    apply in_channel_block in He as (s & p & m & _ & _ & _ & ->).
    apply in_channel_block in He' as (s' & p' & m' & _ & _ & _ & E).
    apply (f_equal channel) in E. simpl in E.
    apply fresh_calls in E; try (apply channel_call_lt; lia).
    apply channel_call_inj in E; exact E.
Qed.

End FreshCatalog.

Lemma key_inj (e e' : entity) : key e = key e' -> e = e'.
Proof.
  destruct e, e'; unfold key; simpl. intros H; injection H; intros; subst.
  reflexivity.
Qed.

Lemma demo_fresh : fresh_identifiers demo_config demo_world.
Proof.
  unfold fresh_identifiers.
  replace (uuid_calls demo_config demo_world) with 6%nat by (vm_compute; reflexivity).
  vm_compute.
  repeat (constructor; [simpl; intuition discriminate|]). constructor.
Qed.

(** C1. For positive cardinalities (C, S, P, M) and an identifier generator
    that never repeats a value, the catalog built by EntityCatalog holds
    exactly C*S*P*M tuples, and no two of them agree on the key
    (channel, subtopic, publisher, name). *)
Theorem C1_catalog_size_and_keys (cfg : config) (w : world) :
  0 < num_channels cfg -> 0 < num_subtopic cfg ->
  0 < num_publisher cfg -> 0 < num_metrics cfg ->
  fresh_identifiers cfg w ->
  Z.of_nat (List.length (EntityCatalog cfg w))
  = num_channels cfg * num_subtopic cfg * num_publisher cfg * num_metrics cfg
  /\ NoDup (map key (EntityCatalog cfg w)).
Proof.
  intros HC HS HP HM Hf. rewrite EntityCatalog_spec. split.
  - rewrite length_catalog_spec. unfold nC, nS, nP, nM.
    rewrite !Nat2Z.inj_mul, !Z2Nat.id by lia. ring.
  - apply NoDup_map_NoDup_ForallPairs.
    + intros e e' _ _. apply key_inj.
    + apply NoDup_catalog_spec; exact Hf.
Qed.

Lemma C1_catalog_size_and_keys_witness :
  Z.of_nat (List.length (EntityCatalog demo_config demo_world)) = 2 * 1 * 2 * 2
  /\ NoDup (map key (EntityCatalog demo_config demo_world)).
Proof.
  apply (C1_catalog_size_and_keys demo_config demo_world);
    try (vm_compute; reflexivity).
  exact demo_fresh.
Defined.

(** ** Counting identifiers *)

Lemma map_flat_map {A B C : Type} (g : B -> C) (f : A -> list B) (l : list A) :
  map g (flat_map f l) = flat_map (fun x => map g (f x)) l.
Proof.
  induction l as [|x l IH]; simpl; auto. rewrite map_app, IH. reflexivity.
Qed.

Lemma flat_map_flat_map {A B C : Type} (g : B -> list C) (f : A -> list B)
  (l : list A) :
  flat_map g (flat_map f l) = flat_map (fun x => flat_map g (f x)) l.
Proof.
  induction l as [|x l IH]; simpl; auto. rewrite flat_map_app, IH. reflexivity.
Qed.

Lemma flat_map_map {A B C : Type} (g : B -> list C) (f : A -> B) (l : list A) :
  flat_map g (map f l) = flat_map (fun x => g (f x)) l.
Proof.
  induction l as [|x l IH]; simpl; auto. rewrite IH. reflexivity.
Qed.

Lemma map_const_repeat {A B : Type} (g : A -> B) (v : B) (l : list A) :
  (forall e, In e l -> g e = v) -> map g l = repeat v (List.length l).
Proof.
  induction l as [|x l IH]; intros H; simpl; auto.
  rewrite H by (left; reflexivity). f_equal. apply IH.
  intros e He; apply H; right; exact He.
Qed.

Lemma repeat_flat_map_const {A B : Type} (v : B) (n k : nat) (f : A -> list B)
  (l : list A) :
  List.length l = k -> (forall x, In x l -> f x = repeat v n) ->
  flat_map f l = repeat v (k * n).
Proof.
  revert k; induction l as [|x l IH]; intros k Hk H; simpl in *; subst k; auto.
  rewrite H by (left; reflexivity). simpl. rewrite repeat_app. f_equal.
  apply IH; auto.
Qed.

Lemma count_occ_blocks (ids : list UUID) (n : nat) (u : UUID) :
  count_occ Z.eq_dec (flat_map (fun v => repeat v n) ids) u
  = (n * count_occ Z.eq_dec ids u)%nat.
Proof.
  induction ids as [|v ids IH]; cbn [flat_map]; [simpl; lia|].
  rewrite count_occ_app, IH. cbn [count_occ].
  destruct (Z.eq_dec v u) as [->|Hne].
  - rewrite count_occ_repeat_eq by reflexivity. lia.
  - rewrite count_occ_repeat_neq by congruence. lia.
Qed.

Lemma in_blocks (ids : list UUID) (n : nat) (u : UUID) :
  (0 < n)%nat ->
  In u (flat_map (fun v => repeat v n) ids) <-> In u ids.
Proof.
  intros Hn. rewrite in_flat_map. split.
  - intros (v & Hv & Hu). apply repeat_spec in Hu. subst; exact Hv.
  - intros Hu. exists u. split; auto. destruct n; [lia|]. left; reflexivity.
Qed.

Lemma distinct_count_same (l ids : list UUID) :
  NoDup ids -> (forall u, In u l <-> In u ids) ->
  distinct_count l = List.length ids.
Proof.
  intros Hnd Hiff. unfold distinct_count. apply Nat.le_antisymm.
  - apply NoDup_incl_length; [apply NoDup_nodup|].
    intros u Hu. apply nodup_In in Hu. apply Hiff; exact Hu.
  - apply NoDup_incl_length; [exact Hnd|].
    intros u Hu. apply nodup_In. apply Hiff; exact Hu.
Qed.

Lemma distinct_count_blocks (ids : list UUID) (n : nat) :
  (0 < n)%nat -> NoDup ids ->
  distinct_count (flat_map (fun v => repeat v n) ids) = List.length ids.
Proof.
  intros Hn Hnd. apply distinct_count_same; auto.
  intros u; apply in_blocks; exact Hn.
Qed.

(** The [uuid4] calls that name publishers, in call order. *)
Definition publisher_calls (cfg : config) : list nat :=
  flat_map (fun c =>
    flat_map (fun s => map (publisher_call cfg c s) (seq 0 (nP cfg)))
             (seq 0 (nS cfg)))
    (seq 0 (nC cfg)).

Definition channel_calls (cfg : config) : list nat :=
  map (channel_call cfg) (seq 0 (nC cfg)).

Lemma channels_of_catalog cfg w :
  map channel (catalog_spec cfg w)
  = flat_map (fun v => repeat v (nS cfg * (nP cfg * nM cfg)))
             (map (uuid4 w) (channel_calls cfg)).
Proof.
  unfold catalog_spec, channel_calls. rewrite map_flat_map, map_map, flat_map_map.
  apply flat_map_ext_in. intros c _.
  rewrite <- (length_channel_block cfg w c). apply map_const_repeat.
  intros e He. apply in_channel_block in He as (s & p & m & _ & _ & _ & ->).
  reflexivity.
Qed.

Lemma publishers_of_catalog cfg w :
  map publisher (catalog_spec cfg w)
  = flat_map (fun v => repeat v (nM cfg)) (map (uuid4 w) (publisher_calls cfg)).
Proof.
  unfold catalog_spec, publisher_calls.
  rewrite map_flat_map, flat_map_map, flat_map_flat_map.
  apply flat_map_ext_in. intros c _.
  unfold channel_block. rewrite map_flat_map, flat_map_flat_map.
  apply flat_map_ext_in. intros s _.
  unfold subtopic_block. rewrite map_flat_map, flat_map_map.
  apply flat_map_ext_in. intros p _.
  rewrite <- (length_publisher_block cfg w c s p). apply map_const_repeat.
  intros e He. apply in_publisher_block in He as (m & _ & ->). reflexivity.
Qed.

Lemma length_publisher_calls cfg :
  List.length (publisher_calls cfg) = (nC cfg * (nS cfg * nP cfg))%nat.
Proof.
  unfold publisher_calls.
  rewrite (flat_map_constant_length (c := (nS cfg * nP cfg)%nat)), length_seq;
    auto.
  intros c _.
  rewrite (flat_map_constant_length (c := nP cfg)), length_seq; auto.
  intros s _. rewrite length_map, length_seq. reflexivity.
Qed.

Lemma in_publisher_calls cfg i :
  In i (publisher_calls cfg) <->
  exists c s p, (c < nC cfg)%nat /\ (s < nS cfg)%nat /\ (p < nP cfg)%nat /\
                i = publisher_call cfg c s p.
Proof.
  unfold publisher_calls. rewrite in_flat_map. split.
  - intros (c & Hc & H). apply in_flat_map in H as (s & Hs & H).
    apply in_map_iff in H as (p & <- & Hp). apply in_seq in Hc, Hs, Hp.
    exists c, s, p. repeat split; lia.
  - intros (c & s & p & Hc & Hs & Hp & ->). exists c. split; [apply in_seq; lia|].
    apply in_flat_map. exists s. split; [apply in_seq; lia|].
    apply in_map_iff. exists p. split; auto. apply in_seq; lia.
Qed.

Lemma publisher_call_inj3 cfg c s p c' s' p' :
  (s < nS cfg)%nat -> (p < nP cfg)%nat ->
  (s' < nS cfg)%nat -> (p' < nP cfg)%nat ->
  publisher_call cfg c s p = publisher_call cfg c' s' p' ->
  c = c' /\ s = s' /\ p = p'.
Proof.
  unfold publisher_call, channel_call. intros Hs Hp Hs' Hp' H.
  assert (s * nP cfg + p < nS cfg * nP cfg)%nat by nia.
  assert (s' * nP cfg + p' < nS cfg * nP cfg)%nat by nia.
  assert (c = c') by nia. subst c'.
  assert (s = s') by nia. subst s'. repeat split; lia.
Qed.

Lemma NoDup_publisher_calls cfg : NoDup (publisher_calls cfg).
Proof.
  unfold publisher_calls. apply NoDup_flat_map.
  - apply seq_NoDup.
  - intros c _. apply NoDup_flat_map.
    + apply seq_NoDup.
    + intros s _. apply NoDup_map_NoDup_ForallPairs; [|apply seq_NoDup].
      intros p p' Hp Hp' E. apply in_seq in Hp, Hp'.
      apply publisher_call_inj in E; lia.
    + intros s s' i _ _ Hi Hi'.
      apply in_map_iff in Hi as (p & <- & Hp).
      apply in_map_iff in Hi' as (p' & E & Hp').
      apply in_seq in Hp, Hp'. symmetry in E.
      apply publisher_call_inj in E; lia.
  - intros c c' i _ _ Hi Hi'.
    apply in_flat_map in Hi as (s & Hs & Hi).
    apply in_flat_map in Hi' as (s' & Hs' & Hi').
    apply in_map_iff in Hi as (p & <- & Hp).
    apply in_map_iff in Hi' as (p' & E & Hp').
    apply in_seq in Hs, Hs', Hp, Hp'. symmetry in E.
    apply publisher_call_inj3 in E; lia.
Qed.

Lemma NoDup_channel_ids cfg w :
  fresh_identifiers cfg w -> NoDup (map (uuid4 w) (channel_calls cfg)).
Proof.
  intros Hf. unfold channel_calls. rewrite map_map.
  apply NoDup_map_NoDup_ForallPairs; [|apply seq_NoDup].
  intros c c' Hc Hc' E. apply in_seq in Hc, Hc'.
  apply (fresh_calls cfg w Hf) in E; try (apply channel_call_lt; lia).
  apply channel_call_inj in E; exact E.
Qed.

Lemma NoDup_publisher_ids cfg w :
  fresh_identifiers cfg w -> NoDup (map (uuid4 w) (publisher_calls cfg)).
Proof.
  intros Hf. apply NoDup_map_NoDup_ForallPairs; [|apply NoDup_publisher_calls].
  intros i j Hi Hj E.
  apply in_publisher_calls in Hi as (c & s & p & Hc & Hs & Hp & ->).
  apply in_publisher_calls in Hj as (c' & s' & p' & Hc' & Hs' & Hp' & ->).
  apply (fresh_calls cfg w Hf) in E; auto; apply publisher_call_lt; auto.
Qed.

(** What C7 says of a configuration and a world. *)
Definition identifier_sharing (cfg : config) (w : world) : Prop :=
  let catalog := EntityCatalog cfg w in
  Z.of_nat (distinct_count (map channel catalog)) = num_channels cfg
  /\ Z.of_nat (distinct_count (map publisher catalog))
     = num_channels cfg * num_subtopic cfg * num_publisher cfg
  /\ (forall e, In e catalog ->
        Z.of_nat (count_occ Z.eq_dec (map channel catalog) (channel e))
        = num_subtopic cfg * num_publisher cfg * num_metrics cfg)
  /\ (forall e, In e catalog ->
        Z.of_nat (count_occ Z.eq_dec (map publisher catalog) (publisher e))
        = num_metrics cfg)
  /\ (forall e e', In e catalog -> In e' catalog ->
        publisher e = publisher e' ->
        channel e = channel e' /\ subtopic e = subtopic e').

(** C7. For every configuration with positive S, P and M and a channel
    count C >= 0 (the positive cardinalities of the contract, and also no
    channel at all), and an identifier generator that never repeats a
    value: the catalog holds exactly C distinct channel identifiers and
    exactly C*S*P distinct publisher identifiers; every channel identifier
    occurs in exactly S*P*M tuples, every publisher identifier in exactly M
    tuples, and the tuples of one publisher identifier have the same
    channel and subtopic. *)
Theorem C7_identifier_sharing (cfg : config) (w : world) :
  0 <= num_channels cfg -> 0 < num_subtopic cfg ->
  0 < num_publisher cfg -> 0 < num_metrics cfg ->
  fresh_identifiers cfg w ->
  identifier_sharing cfg w.
Proof.
  intros HC HS HP HM Hf. unfold identifier_sharing.
  rewrite EntityCatalog_spec.
  assert (Hn : forall x, 0 <= x -> Z.of_nat (Z.to_nat x) = x)
    by (intros; apply Z2Nat.id; assumption).
  repeat split.
  - rewrite channels_of_catalog, distinct_count_blocks.
    + unfold channel_calls. rewrite !length_map, length_seq. apply Hn; lia.
    + unfold nS, nP, nM. nia.
    + apply NoDup_channel_ids; exact Hf.
  - rewrite publishers_of_catalog, distinct_count_blocks.
    + rewrite length_map, length_publisher_calls. unfold nC, nS, nP.
      rewrite !Nat2Z.inj_mul, !Hn by lia. ring.
    + unfold nM; lia.
    + apply NoDup_publisher_ids; exact Hf.
  - intros e He. rewrite channels_of_catalog, count_occ_blocks.
    assert (Hin : In (channel e) (map (uuid4 w) (channel_calls cfg))).
    { apply in_catalog_spec in He as (c & s & p & m & Hc & _ & _ & _ & ->).
      cbn [channel entity_at]. apply (in_map (uuid4 w)).
      unfold channel_calls. apply (in_map (channel_call cfg)).
      apply in_seq; lia. }
    apply (NoDup_count_occ' Z.eq_dec) in Hin;
      [|apply NoDup_channel_ids; exact Hf].
    rewrite Hin. unfold nS, nP, nM.
    rewrite Nat.mul_1_r, !Nat2Z.inj_mul, !Hn by lia. ring.
  - intros e He. rewrite publishers_of_catalog, count_occ_blocks.
    assert (Hin : In (publisher e) (map (uuid4 w) (publisher_calls cfg))).
    { apply in_catalog_spec in He as (c & s & p & m & Hc & Hs & Hp & _ & ->).
      cbn [publisher entity_at]. apply (in_map (uuid4 w)).
      apply in_publisher_calls. exists c, s, p. auto. }
    apply (NoDup_count_occ' Z.eq_dec) in Hin;
      [|apply NoDup_publisher_ids; exact Hf].
    rewrite Hin. unfold nM. rewrite Nat.mul_1_r. apply Hn; lia.
  - apply in_catalog_spec in H as (c & s & p & m & Hc & Hs & Hp & _ & ->).
    apply in_catalog_spec in H0 as (c' & s' & p' & m' & Hc' & Hs' & Hp' & _ & ->).
    simpl in H1.
    apply (fresh_calls cfg w Hf) in H1; try (apply publisher_call_lt; auto).
    apply publisher_call_inj3 in H1 as (-> & _ & _); auto.
  - apply in_catalog_spec in H as (c & s & p & m & Hc & Hs & Hp & _ & ->).
    apply in_catalog_spec in H0 as (c' & s' & p' & m' & Hc' & Hs' & Hp' & _ & ->).
    simpl in H1.
    apply (fresh_calls cfg w Hf) in H1; try (apply publisher_call_lt; auto).
    apply publisher_call_inj3 in H1 as (_ & -> & _); auto.
Qed.

Lemma C7_identifier_sharing_witness : identifier_sharing demo_config demo_world.
Proof.
  apply (C7_identifier_sharing demo_config demo_world);
    try (vm_compute; first [reflexivity | discriminate]).
  exact demo_fresh.
Defined.

(** ** Text without separators *)

Definition is_sep (c : ascii) : Prop := c = comma \/ c = newline.

Lemma occurs_app c (a b : string) :
  occurs c (a ++ b) = occurs c a || occurs c b.
Proof.
  induction a as [|x a IH]; simpl; auto. rewrite IH, orb_assoc. reflexivity.
Qed.

Lemma occurs_uint c (d : uint) :
  is_sep c -> occurs c (NilEmpty.string_of_uint d) = false.
Proof.
  intros [-> | ->]; induction d; simpl; auto.
Qed.

Lemma occurs_str_int c (n : Z) : is_sep c -> occurs c (str_int n) = false.
Proof.
  intros Hc. unfold str_int, NilEmpty.string_of_int.
  destruct (Z.to_int n) as [d|d].
  - apply occurs_uint; exact Hc.
  - simpl. rewrite (occurs_uint c d Hc). destruct Hc as [-> | ->]; reflexivity.
Qed.

Lemma hex_digit_not_sep c (d : Z) :
  is_sep c -> Ascii.eqb (hex_digit d) c = false.
Proof.
  intros [-> | ->]; (destruct d as [|p|p]; [reflexivity| |reflexivity]);
    do 5 (try (destruct p as [p|p|]; try reflexivity)).
Qed.

Lemma occurs_hex_slice c u from len :
  is_sep c -> occurs c (hex_slice u from len) = false.
Proof.
  intros Hc. unfold hex_slice. generalize (seq from len) as l.
  induction l as [|i l IH]; simpl; auto.
  rewrite hex_digit_not_sep by exact Hc. exact IH.
Qed.

Lemma occurs_uuid c (u : Z) : is_sep c -> occurs c (PyUuid.str u) = false.
Proof.
  intros Hc. unfold PyUuid.str.
  rewrite !occurs_app, !occurs_hex_slice by exact Hc.
  destruct Hc as [-> | ->]; reflexivity.
Qed.

Lemma occurs_subtopic_label c s : is_sep c -> occurs c (subtopic_label s) = false.
Proof.
  intros Hc. unfold subtopic_label. rewrite occurs_app, occurs_str_int by exact Hc.
  destruct Hc as [-> | ->]; reflexivity.
Qed.

Lemma occurs_metric_label c m : is_sep c -> occurs c (metric_label m) = false.
Proof.
  intros Hc. unfold metric_label. rewrite occurs_app, occurs_str_int by exact Hc.
  destruct Hc as [-> | ->]; reflexivity.
Qed.

Lemma occurs_zeros c n : is_sep c -> occurs c (PyFloat.zeros n) = false.
Proof.
  intros [-> | ->]; induction n; simpl; auto.
Qed.

Lemma occurs_substring c (s : string) :
  occurs c s = false -> forall n m, occurs c (substring n m s) = false.
Proof.
  induction s as [|x s IH]; intros H n m.
  - destruct n, m; reflexivity.
  - simpl in H. apply orb_false_iff in H as [Hx Hs].
    destruct n as [|n]; destruct m as [|m]; simpl; auto.
    rewrite Hx. simpl. apply IH; exact Hs.
Qed.

Lemma occurs_strip_dot c (s : string) :
  occurs c s = false -> occurs c (PyFloat.strip_dot s) = false.
Proof.
  induction s as [|x s IH]; intros H; auto.
  simpl in H. apply orb_false_iff in H as [Hx Hs].
  destruct s as [|y s].
  - simpl. destruct (Ascii.eqb x "."); simpl; auto. rewrite Hx; reflexivity.
  - change (PyFloat.strip_dot (String x (String y s)))
      with (String x (PyFloat.strip_dot (String y s))).
    simpl occurs at 1. rewrite Hx. simpl. apply IH; exact Hs.
Qed.

Lemma occurs_exp_text c e : is_sep c -> occurs c (PyFloat.exp_text e) = false.
Proof.
  intros Hc. unfold PyFloat.exp_text.
  rewrite !occurs_app, occurs_str_int by exact Hc.
  destruct (e <? 0), (Z.abs e <? 10); destruct Hc as [-> | ->]; reflexivity.
Qed.

Lemma occurs_format_short c neg digits decpt :
  is_sep c -> occurs c (PyFloat.format_short neg digits decpt) = false.
Proof.
  intros Hc. unfold PyFloat.format_short.
  set (d := NilEmpty.string_of_uint digits).
  assert (Hd : occurs c d = false) by (apply occurs_uint; exact Hc).
  assert (Hdot : occurs c "." = false) by (destruct Hc as [-> | ->]; reflexivity).
  rewrite !occurs_app. repeat (apply orb_false_iff; split).
  - destruct neg; destruct Hc as [-> | ->]; reflexivity.
  - apply occurs_strip_dot. rewrite !occurs_app.
    repeat (apply orb_false_iff; split).
    + match goal with |- context [if ?b then _ else _] => destruct b end.
      * rewrite occurs_app, occurs_zeros by exact Hc.
        destruct Hc as [-> | ->]; reflexivity.
      * reflexivity.
    + match goal with |- context [if ?b then _ else _] => destruct b end.
      * rewrite !occurs_app, !occurs_substring, Hdot by exact Hd. reflexivity.
      * exact Hd.
    + match goal with |- context [if ?b then _ else _] => destruct b end.
      * rewrite !occurs_app, !occurs_zeros, Hdot by exact Hc. reflexivity.
      * apply occurs_zeros; exact Hc.
  - match goal with |- context [if ?b then _ else _] => destruct b end.
    + rewrite occurs_app, occurs_exp_text by exact Hc.
      destruct Hc as [-> | ->]; reflexivity.
    + reflexivity.
Qed.

Lemma occurs_repr c dtoa x : is_sep c -> occurs c (PyFloat.repr dtoa x) = false.
Proof.
  intros Hc. unfold PyFloat.repr. destruct x as [s|s| |s m e].
  - destruct (dtoa _). apply occurs_format_short; exact Hc.
  - destruct s; destruct Hc as [-> | ->]; reflexivity.
  - destruct Hc as [-> | ->]; reflexivity.
  - destruct (dtoa _). apply occurs_format_short; exact Hc.
Qed.

(** ** Splitting text *)

Lemma append_assoc (a b c : string) :
  ((a ++ b) ++ c)%string = (a ++ (b ++ c))%string.
Proof.
  induction a as [|x a IH]; simpl; congruence.
Qed.

Lemma split_on_no_sep c (s : string) :
  occurs c s = false -> split_on c s = [s].
Proof.
  induction s as [|x s IH]; simpl; auto.
  intros H. apply orb_false_iff in H as [Hx Hs].
  rewrite Hx, (IH Hs). reflexivity.
Qed.

Lemma split_on_app c (a b : string) :
  occurs c a = false ->
  split_on c (a ++ String c b) = a :: split_on c b.
Proof.
  induction a as [|x a IH]; simpl.
  - intros _. rewrite Ascii.eqb_refl. reflexivity.
  - intros H. apply orb_false_iff in H as [Hx Ha].
    rewrite Hx, (IH Ha). reflexivity.
Qed.

Lemma count_char_app c (a b : string) :
  count_char c (a ++ b) = (count_char c a + count_char c b)%nat.
Proof.
  induction a as [|x a IH]; simpl; auto. rewrite IH. lia.
Qed.

Lemma count_char_no_sep c (s : string) :
  occurs c s = false -> count_char c s = O.
Proof.
  induction s as [|x s IH]; simpl; auto.
  intros H. apply orb_false_iff in H as [Hx Hs].
  rewrite Hx, (IH Hs). reflexivity.
Qed.

Lemma split_join_commas (fs : list string) :
  fs <> [] -> Forall (fun f => occurs comma f = false) fs ->
  split_on comma (join_commas fs) = fs.
Proof.
  induction fs as [|f fs IH]; intros Hne Hall; [congruence|].
  inversion Hall as [|? ? Hf Hfs]; subst.
  destruct fs as [|f' fs].
  - simpl. apply split_on_no_sep; exact Hf.
  - change (join_commas (f :: f' :: fs))
      with (f ++ String comma (join_commas (f' :: fs)))%string.
    rewrite split_on_app by exact Hf. f_equal. apply IH; [discriminate|exact Hfs].
Qed.

Lemma count_join_commas (fs : list string) :
  Forall (fun f => occurs comma f = false) fs ->
  count_char comma (join_commas fs) = (List.length fs - 1)%nat.
Proof.
  induction fs as [|f fs IH]; intros Hall; [reflexivity|].
  inversion Hall as [|? ? Hf Hfs]; subst.
  destruct fs as [|f' fs].
  - simpl. apply count_char_no_sep; exact Hf.
  - change (join_commas (f :: f' :: fs))
      with (f ++ String comma (join_commas (f' :: fs)))%string.
    rewrite count_char_app, (count_char_no_sep _ _ Hf).
    cbn [count_char]. rewrite Ascii.eqb_refl, (IH Hfs). simpl. lia.
Qed.

Lemma occurs_join_commas c (fs : list string) :
  c <> comma -> Forall (fun f => occurs c f = false) fs ->
  occurs c (join_commas fs) = false.
Proof.
  intros Hc. induction fs as [|f fs IH]; intros Hall; [reflexivity|].
  inversion Hall as [|? ? Hf Hfs]; subst.
  destruct fs as [|f' fs]; [exact Hf|].
  change (join_commas (f :: f' :: fs))
    with (f ++ String comma (join_commas (f' :: fs)))%string.
  rewrite occurs_app, Hf. cbn [occurs orb]. rewrite (IH Hfs), orb_false_r.
  apply Ascii.eqb_neq. congruence.
Qed.

(** Lines: a text made of newline-terminated pieces splits back into them. *)
Lemma split_terminated (ls : list string) :
  Forall (fun l => occurs newline l = false) ls ->
  split_on newline (concat_all (map (fun l => l ++ nl)%string ls))
  = ls ++ [EmptyString].
Proof.
  induction ls as [|l ls IH]; intros Hall; [reflexivity|].
  inversion Hall as [|? ? Hl Hls]; subst.
  cbn [map concat_all]. unfold nl at 1. rewrite append_assoc.
  cbn [append]. rewrite split_on_app by exact Hl.
  rewrite (IH Hls). reflexivity.
Qed.

Lemma lines_terminated (ls : list string) :
  Forall (fun l => occurs newline l = false) ls ->
  lines (concat_all (map (fun l => l ++ nl)%string ls)) = ls.
Proof.
  intros Hall. unfold lines. rewrite (split_terminated ls Hall).
  rewrite rev_app_distr. cbn [List.rev app]. apply rev_involutive.
Qed.

(** ** RowEmitter: the loops compute the closed form *)

Lemma sample_ok w n : sample w n = Ok (sample_value w n).
Proof.
  reflexivity.
Qed.

Lemma row_line_text w ts e v :
  row_line w ts e v = (row_text w (ts, e, v) ++ nl)%string.
Proof.
  unfold row_line, row_text, row_fields, join_commas,
    message_time, message_entity, message_value. cbn [fst snd].
  unfold comma.
  repeat (progress (rewrite ?append_assoc; cbn [append])). reflexivity.
Qed.

Lemma concat_all_app (xs ys : list string) :
  concat_all (xs ++ ys) = (concat_all xs ++ concat_all ys)%string.
Proof.
  induction xs as [|x xs IH]; simpl; auto. rewrite IH, append_assoc. reflexivity.
Qed.

Definition terminated (w : world) (rs : list message) : string :=
  concat_all (map (fun l => l ++ nl)%string (map (row_text w) rs)).

Lemma terminated_app w rs rs' :
  terminated w (rs ++ rs') = (terminated w rs ++ terminated w rs')%string.
Proof.
  unfold terminated. rewrite !map_app, concat_all_app. reflexivity.
Qed.

Lemma append_empty_r (s : string) : (s ++ "")%string = s.
Proof.
  induction s as [|x s IH]; simpl; congruence.
Qed.

Lemma emit_rows_spec w ts catalog :
  forall s,
    emit_rows w catalog ts s =
    Ok {| file := (file s ++ terminated w (group_rows w ts catalog (words s)))%string;
          words := words s + 2 * List.length catalog |}.
Proof.
  unfold emit_rows.
  induction catalog as [|e rest IH]; intros s; cbn [for_each group_rows].
  - unfold terminated; cbn. rewrite append_empty_r, Nat.add_0_r.
    destruct s; reflexivity.
  - rewrite sample_ok. cbn [bind]. rewrite IH. cbn [file words].
    f_equal. f_equal.
    + rewrite row_line_text, append_assoc. reflexivity.
    + cbn [List.length]. lia.
Qed.

Lemma row_loop_spec w g catalog xs :
  forall s,
    for_each xs
      (fun i s => ts <- timestamp_ns w g i ;; emit_rows w catalog ts s) s =
    (tss <- map_result (timestamp_ns w g) xs ;;
     Ok {| file := (file s ++ terminated w (all_rows w catalog tss (words s)))%string;
           words := words s + 2 * (List.length tss * List.length catalog) |}).
Proof.
  induction xs as [|x xs IH]; intros s; cbn [for_each map_result].
  - cbn. unfold terminated; cbn. rewrite append_empty_r, Nat.add_0_r.
    destruct s; reflexivity.
  - destruct (timestamp_ns w g x) as [ts|e]; cbn [bind]; [|reflexivity].
    rewrite emit_rows_spec. cbn [bind]. rewrite IH. cbn [file words].
    destruct (map_result (timestamp_ns w g) xs) as [tss|e]; cbn [bind];
      [|reflexivity].
    f_equal. f_equal.
    + cbn [all_rows]. rewrite terminated_app, append_assoc. reflexivity.
    + cbn [List.length]. lia.
Qed.

Lemma run_spec cfg w :
  run cfg w =
  (g <- TimeGrid cfg w ;;
   tss <- grid_ns w g ;;
   Ok (header ++ nl ++
       terminated w (all_rows w (EntityCatalog cfg w) tss O))%string).
Proof.
  unfold run. destruct (TimeGrid cfg w) as [g|e]; cbn [bind]; [|reflexivity].
  unfold RowEmitter, grid_ns. rewrite row_loop_spec.
  destruct (map_result _ _) as [tss|e]; cbn [bind file]; [|reflexivity].
  rewrite append_assoc. reflexivity.
Qed.

Lemma run_inv cfg w f :
  run cfg w = Ok f ->
  exists g tss,
    TimeGrid cfg w = Ok g /\ grid_ns w g = Ok tss /\
    f = (header ++ nl ++
         terminated w (all_rows w (EntityCatalog cfg w) tss O))%string.
Proof.
  rewrite run_spec.
  destruct (TimeGrid cfg w) as [g|e]; cbn [bind]; [|discriminate].
  destruct (grid_ns w g) as [tss|e] eqn:Eg; cbn [bind]; [|discriminate].
  intros H; injection H as <-. exists g, tss. repeat split; auto.
Qed.

Lemma length_map_result {A B : Type} (f : A -> result B) (xs : list A) ys :
  map_result f xs = Ok ys -> List.length ys = List.length xs.
Proof.
  revert ys; induction xs as [|x xs IH]; intros ys; cbn [map_result].
  - intros H; injection H as <-; reflexivity.
  - destruct (f x); cbn [bind]; [|discriminate].
    destruct (map_result f xs) as [zs|]; cbn [bind]; [|discriminate].
    intros H; injection H as <-. simpl. f_equal. apply IH; reflexivity.
Qed.

Lemma length_grid_ns w g tss :
  grid_ns w g = Ok tss -> List.length tss = Z.to_nat (num_intervals g).
Proof.
  intros H. apply length_map_result in H. rewrite H.
  unfold py_range. rewrite length_map, length_seq. f_equal. lia.
Qed.

Lemma length_group_rows w ts catalog n :
  List.length (group_rows w ts catalog n) = List.length catalog.
Proof.
  revert n; induction catalog as [|e rest IH]; intros n; simpl; auto.
Qed.

Lemma length_all_rows w catalog tss n :
  List.length (all_rows w catalog tss n)
  = (List.length tss * List.length catalog)%nat.
Proof.
  revert n; induction tss as [|ts rest IH]; intros n; simpl; auto.
  rewrite length_app, length_group_rows, IH. reflexivity.
Qed.

(** ** The lines of the file *)

(** Labels of catalog entities hold no separator. *)
Definition well_labelled (e : entity) : Prop :=
  forall c, is_sep c ->
    occurs c (subtopic e) = false /\ occurs c (name e) = false.

Lemma catalog_well_labelled cfg w e :
  In e (EntityCatalog cfg w) -> well_labelled e.
Proof.
  rewrite EntityCatalog_spec. intros He c Hc.
  apply in_catalog_spec in He as (ci & s & p & m & _ & _ & _ & _ & ->).
  simpl. split; [apply occurs_subtopic_label|apply occurs_metric_label]; exact Hc.
Qed.

Lemma in_group_rows w ts catalog n r :
  In r (group_rows w ts catalog n) ->
  In (message_entity r) catalog /\ message_time r = ts.
Proof.
  revert n; induction catalog as [|e rest IH]; intros n; simpl; [tauto|].
  intros [<- | H]; [split; [left|]; reflexivity|].
  apply IH in H as [H1 H2]. split; [right|]; assumption.
Qed.

Lemma in_all_rows w catalog tss n r :
  In r (all_rows w catalog tss n) ->
  In (message_entity r) catalog /\ In (message_time r) tss.
Proof.
  revert n; induction tss as [|ts rest IH]; intros n; simpl; [tauto|].
  rewrite in_app_iff. intros [H | H].
  - apply in_group_rows in H as [H1 H2]. split; [|left]; auto.
  - apply IH in H as [H1 H2]. split; [|right]; auto.
Qed.

Lemma row_fields_sep_free c w r :
  is_sep c -> well_labelled (message_entity r) ->
  Forall (fun f => occurs c f = false) (row_fields w r).
Proof.
  intros Hc Hl. destruct (Hl c Hc) as [Hs Hn]. unfold row_fields.
  repeat constructor; auto using occurs_str_int, occurs_uuid, occurs_repr;
    destruct Hc as [-> | ->]; reflexivity.
Qed.

Lemma row_text_no_newline w r :
  well_labelled (message_entity r) -> occurs newline (row_text w r) = false.
Proof.
  intros Hl. unfold row_text. apply occurs_join_commas.
  - discriminate.
  - apply row_fields_sep_free; [right; reflexivity|exact Hl].
Qed.

Lemma fields_row_text w r :
  well_labelled (message_entity r) -> fields (row_text w r) = row_fields w r.
Proof.
  intros Hl. unfold fields, row_text. apply split_join_commas.
  - discriminate.
  - apply row_fields_sep_free; [left; reflexivity|exact Hl].
Qed.

Lemma lines_of_file w (rs : list message) :
  Forall (fun r => well_labelled (message_entity r)) rs ->
  lines (header ++ nl ++ terminated w rs) = header :: map (row_text w) rs.
Proof.
  intros Hall.
  change (header ++ nl ++ terminated w rs)%string
    with (concat_all (map (fun l => l ++ nl)%string
                          (header :: map (row_text w) rs))).
  apply lines_terminated. constructor; [reflexivity|].
  apply Forall_map. eapply Forall_impl; [|exact Hall].
  intros r Hr. apply row_text_no_newline; exact Hr.
Qed.

Lemma all_rows_well_labelled cfg w tss n :
  Forall (fun r => well_labelled (message_entity r))
         (all_rows w (EntityCatalog cfg w) tss n).
Proof.
  apply Forall_forall. intros r Hr. apply in_all_rows in Hr as [He _].
  eapply catalog_well_labelled; exact He.
Qed.

(** A completed run, read back: its grid, its timestamps, its rows. *)
Lemma run_lines cfg w f :
  run cfg w = Ok f ->
  exists g tss,
    TimeGrid cfg w = Ok g /\ grid_ns w g = Ok tss /\
    lines f = header :: map (row_text w)
                            (all_rows w (EntityCatalog cfg w) tss O).
Proof.
  intros H. apply run_inv in H as (g & tss & Hg & Ht & ->).
  exists g, tss. repeat split; auto.
  apply lines_of_file, all_rows_well_labelled.
Qed.

Lemma occurs_t_uint (d : uint) :
  occurs "t" (NilEmpty.string_of_uint d) = false.
Proof.
  induction d; simpl; auto.
Qed.

Lemma row_text_not_header w r :
  well_labelled (message_entity r) -> row_text w r <> header.
Proof.
  intros Hl E. apply (f_equal fields) in E.
  rewrite (fields_row_text w r Hl) in E.
  apply (f_equal (fun l => occurs "t" (hd EmptyString l))) in E.
  cbn in E. unfold str_int, NilEmpty.string_of_int in E.
  destruct (Z.to_int (message_time r)) as [d|d]; cbn in E;
    rewrite occurs_t_uint in E; discriminate.
Qed.

Lemma TimeGrid_count cfg w g :
  TimeGrid cfg w = Ok g ->
  (q <- PyFloat.int_true_divide (last_num_days cfg * 24 * 60)
          (data_interval_minutes cfg) ;;
   PyFloat.int_of_float q) = Ok (num_intervals g).
Proof.
  unfold TimeGrid.
  destruct (timedelta_days _); cbn [bind]; [|discriminate].
  destruct (sub_delta _ _); cbn [bind]; [|discriminate].
  destruct (timedelta_minutes _); cbn [bind]; [|discriminate].
  destruct (PyFloat.int_true_divide _ _); cbn [bind]; [|discriminate].
  destruct (PyFloat.int_of_float _); cbn [bind]; [|discriminate].
  intros H; injection H as <-. reflexivity.
Qed.

(** The timestamp count depends on the configuration only. *)
Lemma TimeGrid_count_same cfg w1 w2 g1 g2 :
  TimeGrid cfg w1 = Ok g1 -> TimeGrid cfg w2 = Ok g2 ->
  num_intervals g1 = num_intervals g2.
Proof.
  intros H1 H2. apply TimeGrid_count in H1, H2. congruence.
Qed.

(** C2. In a completed run with a positive timestamp count, the header
    [time,channel,subtopic,publisher,protocol,name,unit,value] is the first
    line of the file and occurs exactly once, and the number of data rows
    (the lines after it) is the catalog size times the timestamp count. *)
Theorem C2_rows_and_header (cfg : config) (w : world) (g : time_grid)
  (f : string) :
  TimeGrid cfg w = Ok g -> run cfg w = Ok f ->
  0 < num_intervals g ->
  header_line f = header
  /\ lines f = header :: data_lines f
  /\ count_occ string_dec (lines f) header = 1%nat
  /\ Z.of_nat (List.length (data_lines f))
     = Z.of_nat (List.length (EntityCatalog cfg w)) * num_intervals g.
Proof.
  intros Hg Hrun Hn.
  destruct (run_lines cfg w f Hrun) as (g' & tss & Hg' & Ht & Hl).
  assert (g' = g) by congruence. subst g'.
  unfold header_line, data_lines. rewrite Hl. cbn [hd tl].
  repeat split.
  - cbn [count_occ]. destruct (string_dec header header); [|congruence].
    f_equal. apply count_occ_not_In. intros Hin.
    apply in_map_iff in Hin as (r & Hr & Hin).
    apply in_all_rows in Hin as [He _].
    apply (row_text_not_header w r); auto.
    eapply catalog_well_labelled; exact He.
  - rewrite length_map, length_all_rows, (length_grid_ns w g tss Ht).
    rewrite Nat2Z.inj_mul, Z2Nat.id by lia. ring.
Qed.

Lemma C2_rows_and_header_witness :
  header_line demo_file = header
  /\ lines demo_file = header :: data_lines demo_file
  /\ count_occ string_dec (lines demo_file) header = 1%nat
  /\ Z.of_nat (List.length (data_lines demo_file))
     = Z.of_nat (List.length (EntityCatalog demo_config demo_world))
       * num_intervals demo_grid.
Proof.
  apply (C2_rows_and_header demo_config demo_world demo_grid demo_file);
    vm_compute; reflexivity.
Defined.

(** C10. Every data line of a completed run holds exactly 7 commas and
    splits into exactly 8 comma-free fields. *)
Theorem C10_eight_fields (cfg : config) (w : world) (f line : string) :
  run cfg w = Ok f -> In line (data_lines f) ->
  count_char comma line = 7%nat
  /\ List.length (fields line) = 8%nat
  /\ Forall (fun fld => occurs comma fld = false) (fields line).
Proof.
  intros Hrun Hin.
  destruct (run_lines cfg w f Hrun) as (g & tss & _ & _ & Hl).
  unfold data_lines in Hin. rewrite Hl in Hin. cbn [tl] in Hin.
  apply in_map_iff in Hin as (r & <- & Hr).
  apply in_all_rows in Hr as [He _].
  apply catalog_well_labelled in He.
  assert (Hc : Forall (fun fld => occurs comma fld = false) (row_fields w r))
    by (apply row_fields_sep_free; [left; reflexivity|exact He]).
  rewrite (fields_row_text w r He). repeat split; auto.
  unfold row_text. rewrite count_join_commas by exact Hc. reflexivity.
Qed.

Lemma C10_eight_fields_witness :
  let line := nth 3 (data_lines demo_file) EmptyString in
  count_char comma line = 7%nat
  /\ List.length (fields line) = 8%nat
  /\ Forall (fun fld => occurs comma fld = false) (fields line).
Proof.
  apply (C10_eight_fields demo_config demo_world demo_file).
  - vm_compute; reflexivity.
  - vm_compute. do 3 right. left. reflexivity.
Defined.

(** ** Order of the rows *)

Lemma nth_group_rows w ts catalog :
  forall n j d de,
    (j < List.length catalog)%nat ->
    nth j (group_rows w ts catalog n) d
    = (ts, nth j catalog de, sample_value w (n + 2 * j)).
Proof.
  induction catalog as [|e rest IH]; intros n j d de Hj; simpl in Hj; [lia|].
  destruct j as [|j]; cbn [group_rows nth].
  - rewrite Nat.add_0_r. reflexivity.
  - rewrite (IH _ _ d de) by lia. do 2 f_equal. lia.
Qed.

Lemma nth_all_rows w catalog tss :
  forall n k d dt de,
    (k < List.length tss * List.length catalog)%nat ->
    nth k (all_rows w catalog tss n) d
    = (nth (k / List.length catalog) tss dt,
       nth (k mod List.length catalog) catalog de,
       sample_value w (n + 2 * k)).
Proof.
  set (c := List.length catalog).
  induction tss as [|ts rest IH]; intros n k d dt de Hk; simpl in Hk; [lia|].
  assert (Hc : (0 < c)%nat) by (destruct c; [lia|lia]).
  cbn [all_rows]. destruct (Nat.lt_ge_cases k c) as [Hlt|Hge].
  - rewrite app_nth1 by (rewrite length_group_rows; exact Hlt).
    rewrite (nth_group_rows w ts catalog n k d de Hlt).
    rewrite Nat.div_small, Nat.mod_small by exact Hlt. reflexivity.
  - rewrite app_nth2 by (rewrite length_group_rows; exact Hge).
    rewrite length_group_rows. fold c.
    rewrite (IH _ _ d dt de) by (fold c in Hk; nia).
    assert (Hd : (k / c = S ((k - c) / c))%nat).
    { replace k with ((k - c) + 1 * c)%nat at 1 by lia.
      rewrite Nat.div_add by lia. lia. }
    assert (Hm : (k mod c = (k - c) mod c)%nat).
    { replace k with ((k - c) + 1 * c)%nat at 1 by lia.
      apply Nat.Div0.mod_add. }
    rewrite Hd, Hm. cbn [nth]. do 2 f_equal. lia.
Qed.

(** C5. In a completed run the data rows come in timestamp-major order:
    row [k] (0-based, after the header) carries the timestamp at index
    [k / |catalog|] of the time grid and the entity at index
    [k mod |catalog|] of the catalog; its protocol field is [mqtt] and its
    unit field is [unit]. *)
Theorem C5_timestamp_major (cfg : config) (w : world) (g : time_grid)
  (tss : list Z) (f : string) (k : nat) :
  TimeGrid cfg w = Ok g -> grid_ns w g = Ok tss -> run cfg w = Ok f ->
  (k < List.length (data_lines f))%nat ->
  let catalog := EntityCatalog cfg w in
  let line := nth k (data_lines f) EmptyString in
  let e := nth (k mod List.length catalog) catalog
             {| channel := 0; subtopic := ""; publisher := 0; name := "" |} in
  field 0 line = str_int (nth (k / List.length catalog) tss 0)
  /\ field 1 line = PyUuid.str (channel e)
  /\ field 2 line = subtopic e
  /\ field 3 line = PyUuid.str (publisher e)
  /\ field 4 line = "mqtt"%string
  /\ field 5 line = name e
  /\ field 6 line = "unit"%string.
Proof.
  intros Hg Ht Hrun Hk catalog line e.
  destruct (run_lines cfg w f Hrun) as (g' & tss' & Hg' & Ht' & Hl).
  assert (g' = g) by congruence. subst g'.
  assert (tss' = tss) by congruence. subst tss'.
  unfold data_lines in Hk. subst line. unfold data_lines.
  rewrite Hl in Hk |- *. cbn [tl] in Hk |- *.
  rewrite length_map in Hk.
  set (d := (0, {| channel := 0; subtopic := ""; publisher := 0; name := "" |},
             PyFloat.zero) : message).
  rewrite (nth_indep _ EmptyString (row_text w d))
    by (rewrite length_map; exact Hk).
  rewrite (map_nth (row_text w)).
  rewrite length_all_rows in Hk.
  rewrite (nth_all_rows w (EntityCatalog cfg w) tss O k d 0
             {| channel := 0; subtopic := ""; publisher := 0; name := "" |} Hk).
  fold catalog. fold e.
  assert (He : In e catalog).
  { apply nth_In. apply Nat.mod_upper_bound. intros E.
    fold catalog in Hk. rewrite E in Hk. lia. }
  apply catalog_well_labelled in He.
  unfold field.
  rewrite (fields_row_text w (nth (k / List.length catalog) tss 0, e, _)) by exact He.
  repeat split.
Qed.

Lemma C5_timestamp_major_witness :
  let catalog := EntityCatalog demo_config demo_world in
  let line := nth 11 (data_lines demo_file) EmptyString in
  let e := nth (11 mod List.length catalog) catalog
             {| channel := 0; subtopic := ""; publisher := 0; name := "" |} in
  field 0 line = str_int (nth (11 / List.length catalog)
                              [1700000000000001024; 1700043200000001024] 0)
  /\ field 1 line = PyUuid.str (channel e)
  /\ field 2 line = subtopic e
  /\ field 3 line = PyUuid.str (publisher e)
  /\ field 4 line = "mqtt"%string
  /\ field 5 line = name e
  /\ field 6 line = "unit"%string.
Proof.
  apply (C5_timestamp_major demo_config demo_world demo_grid
           [1700000000000001024; 1700043200000001024] demo_file 11);
    vm_compute; first [reflexivity | lia].
Defined.

(** ** Labels of the rows *)

Lemma group_rows_complete w ts catalog e :
  In e catalog -> forall n, exists v, In (ts, e, v) (group_rows w ts catalog n).
Proof.
  induction catalog as [|e' rest IH]; intros He n; [destruct He|].
  destruct He as [-> | He].
  - eexists. left. reflexivity.
  - destruct (IH He (S (S n))) as [v Hv]. exists v. right. exact Hv.
Qed.

Lemma all_rows_complete w catalog tss e ts :
  In e catalog -> In ts tss ->
  forall n, exists v, In (ts, e, v) (all_rows w catalog tss n).
Proof.
  intros He. induction tss as [|ts' rest IH]; intros Hts n; [destruct Hts|].
  cbn [all_rows]. destruct Hts as [-> | Hts].
  - destruct (group_rows_complete w ts catalog e He n) as [v Hv].
    exists v. apply in_app_iff. left; exact Hv.
  - destruct (IH Hts (n + 2 * List.length catalog)%nat) as [v Hv].
    exists v. apply in_app_iff. right; exact Hv.
Qed.

Lemma label_pair_row_text w r :
  well_labelled (message_entity r) ->
  label_pair (row_text w r)
  = (subtopic (message_entity r), name (message_entity r)).
Proof.
  intros Hl. unfold label_pair, field. rewrite (fields_row_text w r Hl).
  reflexivity.
Qed.

(** The label pairs a configuration produces when it emits any row. *)
Definition config_label (cfg : config) (n : Z) (pr : string * string) : Prop :=
  0 < n /\ (0 < nC cfg)%nat /\ (0 < nP cfg)%nat /\
  exists s m, (s < nS cfg)%nat /\ (m < nM cfg)%nat /\
              pr = (subtopic_label s, metric_label m).

Lemma labels_of_run cfg w g f pr :
  TimeGrid cfg w = Ok g -> run cfg w = Ok f ->
  In pr (map label_pair (data_lines f)) <->
  config_label cfg (num_intervals g) pr.
Proof.
  intros Hg Hrun.
  destruct (run_lines cfg w f Hrun) as (g' & tss & Hg' & Ht & Hl).
  assert (g' = g) by congruence. subst g'.
  unfold data_lines. rewrite Hl. cbn [tl]. rewrite map_map.
  pose proof (length_grid_ns w g tss Ht) as Hlen.
  rewrite in_map_iff. split.
  - intros (r & <- & Hr). pose proof Hr as Hr'.
    apply in_all_rows in Hr as [He Hts].
    rewrite label_pair_row_text by (eapply catalog_well_labelled; exact He).
    rewrite EntityCatalog_spec in He.
    apply in_catalog_spec in He as (c & s & p & m & Hc & Hs & Hp & Hm & E).
    rewrite E. cbn [subtopic name entity_at]. unfold config_label.
    repeat split; try lia.
    + destruct tss; [destruct Hts|]. simpl in Hlen. lia.
    + exists s, m. auto.
  - intros (Hn & HC & HP & s & m & Hs & Hm & ->).
    set (e := entity_at cfg w 0 s 0 m).
    assert (He : In e (EntityCatalog cfg w)).
    { rewrite EntityCatalog_spec. apply in_catalog_spec.
      exists O, s, O, m. auto. }
    destruct tss as [|ts rest]; [simpl in Hlen; lia|].
    destruct (all_rows_complete w (EntityCatalog cfg w) (ts :: rest) e ts He
                (or_introl eq_refl) O) as [v Hv].
    exists (ts, e, v). split; [|exact Hv].
    rewrite label_pair_row_text by (eapply catalog_well_labelled; exact He).
    reflexivity.
Qed.

(** C8. Two completed runs of one configuration, in worlds that may differ
    in every random draw and in the generation instant, write files with
    the same number of data rows, the same header line and the same set of
    (subtopic, name) label pairs. *)
Theorem C8_same_structure (cfg : config) (w1 w2 : world) (f1 f2 : string) :
  run cfg w1 = Ok f1 -> run cfg w2 = Ok f2 ->
  List.length (data_lines f1) = List.length (data_lines f2)
  /\ header_line f1 = header_line f2
  /\ (forall pr, In pr (map label_pair (data_lines f1))
                 <-> In pr (map label_pair (data_lines f2))).
Proof.
  intros H1 H2.
  destruct (run_lines cfg w1 f1 H1) as (g1 & tss1 & Hg1 & Ht1 & Hl1).
  destruct (run_lines cfg w2 f2 H2) as (g2 & tss2 & Hg2 & Ht2 & Hl2).
  pose proof (TimeGrid_count_same cfg w1 w2 g1 g2 Hg1 Hg2) as Hn.
  repeat split.
  - unfold data_lines. rewrite Hl1, Hl2. cbn [tl].
    rewrite !length_map, !length_all_rows.
    rewrite (length_grid_ns w1 g1 tss1 Ht1), (length_grid_ns w2 g2 tss2 Ht2).
    rewrite !EntityCatalog_spec, !length_catalog_spec, Hn. reflexivity.
  - unfold header_line. rewrite Hl1, Hl2. reflexivity.
  - rewrite (labels_of_run cfg w1 g1 f1 pr Hg1 H1). intros H.
    apply (labels_of_run cfg w2 g2 f2 pr Hg2 H2). rewrite <- Hn. exact H.
  - rewrite (labels_of_run cfg w2 g2 f2 pr Hg2 H2). intros H.
    apply (labels_of_run cfg w1 g1 f1 pr Hg1 H1). rewrite Hn. exact H.
Qed.

Lemma C8_same_structure_witness :
  List.length (data_lines demo_file) = List.length (data_lines demo_file2)
  /\ header_line demo_file = header_line demo_file2
  /\ (forall pr, In pr (map label_pair (data_lines demo_file))
                 <-> In pr (map label_pair (data_lines demo_file2))).
Proof.
  apply (C8_same_structure demo_config demo_world demo_world2);
    vm_compute; reflexivity.
Defined.

(** ** Empty catalog, empty grid *)



(** ** Binary64 rounding *)

Lemma digits2_pos_log2 (p : positive) :
  Zpos (digits2_pos p) = Z.log2 (Zpos p) + 1.
Proof.
  induction p as [p IH|p IH|]; cbn [digits2_pos]; try reflexivity.
  - rewrite Pos2Z.inj_succ, IH.
    change (Z.pos p~1) with (2 * Z.pos p + 1).
    rewrite Z.log2_succ_double by lia. lia.
  - rewrite Pos2Z.inj_succ, IH.
    change (Z.pos p~0) with (2 * Z.pos p).
    rewrite Z.log2_double by lia. lia.
Qed.

Lemma Zdigits2_log2 (m : Z) : 0 < m -> Zdigits2 m = Z.log2 m + 1.
Proof.
  destruct m as [|p|p]; try lia. intros _. apply digits2_pos_log2.
Qed.

Lemma Zdigits2_unique (m d : Z) :
  2 ^ (d - 1) <= m < 2 ^ d -> 0 < d -> Zdigits2 m = d.
Proof.
  intros H Hd.
  assert (0 < m) by (pose proof (Z.pow_pos_nonneg 2 (d - 1) ltac:(lia) ltac:(lia)); lia).
  rewrite Zdigits2_log2 by assumption.
  rewrite (Z.log2_unique m (d - 1)); try lia.
  replace (Z.succ (d - 1)) with d by lia. lia.
Qed.

Lemma Zdigits2_bounds (m : Z) :
  0 < m -> 2 ^ (Zdigits2 m - 1) <= m < 2 ^ Zdigits2 m.
Proof.
  intros H. rewrite Zdigits2_log2 by assumption.
  replace (Z.log2 m + 1 - 1) with (Z.log2 m) by lia.
  pose proof (Z.log2_spec m H). replace (Z.log2 m + 1) with (Z.succ (Z.log2 m)) by lia.
  lia.
Qed.

(** [u = N / D] lies in [[m, m + 1)] at the place the location tells. *)
Definition located (N D m : Z) (l : location) : Prop :=
  match l with
  | loc_Exact => N = m * D
  | loc_Inexact Lt => m * D < N /\ 2 * N < (2 * m + 1) * D
  | loc_Inexact Eq => 2 * N = (2 * m + 1) * D
  | loc_Inexact Gt => (2 * m + 1) * D < 2 * N /\ N < (m + 1) * D
  end.

(** [z] is the integer nearest to [N / D], ties to even. *)
Definition is_rne (N D z : Z) : Prop :=
  (2 * (N - z * D) < D /\ 2 * (z * D - N) < D)
  \/ ((2 * (N - z * D) = D \/ 2 * (z * D - N) = D) /\ Z.even z = true).

Lemma loc_of_shr_record_of_loc m l :
  loc_of_shr_record (shr_record_of_loc m l) = l.
Proof.
  destruct l as [|[]]; reflexivity.
Qed.

Lemma shr_m_shr_record_of_loc m l : shr_m (shr_record_of_loc m l) = m.
Proof.
  destruct l as [|[]]; reflexivity.
Qed.

Lemma shr_1_fields (m : Z) (r s : bool) :
  0 <= m ->
  shr_1 (Build_shr_record m r s) = Build_shr_record (m / 2) (Z.odd m) (r || s).
Proof.
  intros Hm. destruct m as [|p|p]; try lia.
  - reflexivity.
  - destruct p as [p|p|]; cbn [shr_1].
    + f_equal. change (Z.pos p~1) with (2 * Z.pos p + 1).
      apply Z.div_unique with (r := 1); lia.
    + f_equal. change (Z.pos p~0) with (2 * Z.pos p).
      apply Z.div_unique with (r := 0); lia.
    + reflexivity.
Qed.

Lemma shr_1_located N D (m : Z) (r s : bool) :
  0 < D -> 0 <= m ->
  located N D m (loc_of_shr_record (Build_shr_record m r s)) ->
  located N (2 * D) (m / 2)
          (loc_of_shr_record (Build_shr_record (m / 2) (Z.odd m) (r || s))).
Proof.
  intros HD Hm.
  rewrite (Z.div_mod m 2) at 1 by lia. rewrite Zmod_odd.
  set (k := m / 2). destruct (Z.odd m), r, s;
    cbn [loc_of_shr_record located orb]; intros H; lia.
Qed.

(** The record [mrs] describes [N / D]: mantissa, round bit and sticky bit. *)
Definition describes (N D : Z) (mrs : shr_record) : Prop :=
  0 <= shr_m mrs /\ located N D (shr_m mrs) (loc_of_shr_record mrs).

Lemma shr_1_describes N D mrs :
  0 < D -> describes N D mrs ->
  describes N (D * 2) (shr_1 mrs) /\ shr_m (shr_1 mrs) = shr_m mrs / 2.
Proof.
  intros HD [Hm Hl]. destruct mrs as [m r s]. cbn [shr_m] in *.
  rewrite shr_1_fields by exact Hm. cbn [shr_m]. split; [|reflexivity].
  split; [apply Z.div_pos; lia|].
  rewrite (Z.mul_comm D 2). apply shr_1_located; assumption.
Qed.

Lemma iter_shr_describes N (n : positive) :
  forall D mrs,
    0 < D -> describes N D mrs ->
    describes N (D * 2 ^ Zpos n) (iter_pos shr_1 n mrs)
    /\ shr_m (iter_pos shr_1 n mrs) = shr_m mrs / 2 ^ Zpos n.
Proof.
  induction n as [n IH|n IH|]; intros D mrs HD Hd; cbn [iter_pos].
  - destruct (shr_1_describes N D mrs HD Hd) as [H1 E1].
    assert (HD1 : 0 < D * 2) by lia.
    destruct (IH _ _ HD1 H1) as [H2 E2].
    assert (HD2 : 0 < D * 2 * 2 ^ Zpos n)
      by (pose proof (Z.pow_pos_nonneg 2 (Zpos n)); nia).
    destruct (IH _ _ HD2 H2) as [H3 E3].
    assert (Ep : 2 ^ Z.pos n~1 = 2 * 2 ^ Zpos n * 2 ^ Zpos n).
    { change (Z.pos n~1) with (2 * Z.pos n + 1).
      rewrite Z.pow_add_r, Z.pow_1_r by lia.
      replace (2 * Z.pos n) with (Z.pos n + Z.pos n) by lia.
      rewrite Z.pow_add_r by lia. ring. }
    rewrite Ep. split.
    + replace (D * (2 * 2 ^ Zpos n * 2 ^ Zpos n))
        with (D * 2 * 2 ^ Zpos n * 2 ^ Zpos n) by ring. exact H3.
    + rewrite E3, E2, E1.
      pose proof (Z.pow_pos_nonneg 2 (Zpos n) ltac:(lia) ltac:(lia)).
      rewrite !Z.div_div by lia. f_equal. ring.
  - destruct (IH _ _ HD Hd) as [H2 E2].
    assert (HD2 : 0 < D * 2 ^ Zpos n)
      by (pose proof (Z.pow_pos_nonneg 2 (Zpos n)); nia).
    destruct (IH _ _ HD2 H2) as [H3 E3].
    assert (Ep : 2 ^ Z.pos n~0 = 2 ^ Zpos n * 2 ^ Zpos n).
    { change (Z.pos n~0) with (2 * Z.pos n).
      replace (2 * Z.pos n) with (Z.pos n + Z.pos n) by lia.
      rewrite Z.pow_add_r by lia. ring. }
    rewrite Ep. split.
    + replace (D * (2 ^ Zpos n * 2 ^ Zpos n))
        with (D * 2 ^ Zpos n * 2 ^ Zpos n) by ring. exact H3.
    + rewrite E3, E2.
      pose proof (Z.pow_pos_nonneg 2 (Zpos n) ltac:(lia) ltac:(lia)).
      rewrite !Z.div_div by lia. reflexivity.
  - change (2 ^ 1) with 2. apply shr_1_describes; assumption.
Qed.

(** [shr] by [n >= 0] places. *)
Lemma shr_describes N D mrs e n :
  0 < D -> 0 <= n -> describes N D mrs ->
  describes N (D * 2 ^ n) (fst (shr mrs e n))
  /\ shr_m (fst (shr mrs e n)) = shr_m mrs / 2 ^ n
  /\ snd (shr mrs e n) = e + n.
Proof.
  intros HD Hn Hd. destruct n as [|p|p]; try lia; cbn [shr fst snd].
  - rewrite Z.mul_1_r, Z.div_1_r, Z.add_0_r. auto.
  - destruct (iter_shr_describes N p D mrs HD Hd) as [H E]. auto.
Qed.

Lemma shr_nonpos mrs e n : n <= 0 -> shr mrs e n = (mrs, e).
Proof.
  destruct n as [|p|p]; try lia; reflexivity.
Qed.

Lemma round_nearest_even_rne N D mrs :
  0 < D -> describes N D mrs ->
  is_rne N D (round_nearest_even (shr_m mrs) (loc_of_shr_record mrs)).
Proof.
  intros HD [Hm Hl]. unfold is_rne.
  destruct (loc_of_shr_record mrs) as [|[]];
    cbn [located round_nearest_even] in *.
  - left. lia.
  - destruct (Z.even (shr_m mrs)) eqn:Ev.
    + right. split; [left; lia|exact Ev].
    + right. split; [right; lia|].
      rewrite Z.even_add, Ev. reflexivity.
  - left. lia.
  - left. lia.
Qed.

Lemma is_rne_unique N D z z' :
  0 < D -> is_rne N D z -> is_rne N D z' -> z = z'.
Proof.
  intros HD H H'. unfold is_rne in *.
  destruct (Z.lt_trichotomy z z') as [Hlt|[Heq|Hgt]]; auto; exfalso.
  - assert (z' = z + 1) by nia. subst z'.
    destruct H as [H|[H Ev]], H' as [H'|[H' Ev']]; try lia.
    rewrite Z.even_add in Ev'. rewrite Ev in Ev'. discriminate.
  - assert (z = z' + 1) by nia. subst z.
    destruct H as [H|[H Ev]], H' as [H'|[H' Ev']]; try lia.
    rewrite Z.even_add in Ev. rewrite Ev' in Ev. discriminate.
Qed.

Lemma is_rne_scale N D K z :
  0 < K -> is_rne (N * K) (D * K) z <-> is_rne N D z.
Proof.
  intros HK. unfold is_rne.
  replace (N * K - z * (D * K)) with ((N - z * D) * K) by ring.
  replace (z * (D * K) - N * K) with ((z * D - N) * K) by ring.
  split; intros [H|[H Ev]]; [left|right|left|right]; try (split; [|exact Ev]);
    nia.
Qed.

Lemma is_rne_exact D z : 0 < D -> is_rne (z * D) D z.
Proof.
  intros HD. left. lia.
Qed.

Lemma is_rne_bounds N D z :
  0 < D -> is_rne N D z -> 2 * N - D <= 2 * z * D <= 2 * N + D.
Proof.
  intros HD [H|[H _]]; lia.
Qed.

Lemma is_rne_nonneg N D z : 0 < D -> 0 <= N -> is_rne N D z -> 0 <= z.
Proof.
  intros HD HN H. apply is_rne_bounds in H; [|exact HD]. nia.
Qed.

(** Rounding is monotone: an integer below [N / D] stays below. *)
Lemma is_rne_ge N D z k :
  0 < D -> is_rne N D z -> k * D <= N -> k <= z.
Proof.
  intros HD H Hk. apply is_rne_bounds in H; [|exact HD]. nia.
Qed.

Lemma is_rne_le N D z k :
  0 < D -> is_rne N D z -> N <= k * D -> z <= k.
Proof.
  intros HD H Hk. apply is_rne_bounds in H; [|exact HD]. nia.
Qed.

(** The second half of [binary_round_aux]: the rounded mantissa [z] at
    exponent [e] is renormalised (a carry makes it one digit too long) and
    checked against the largest exponent. *)
Definition pack (sx : bool) (z e : Z) : spec_float :=
  let '(mrs, e') := shr_fexp 53 1024 z e loc_Exact in
  match shr_m mrs with
  | Z0 => S754_zero sx
  | Zpos m => if e' <=? 1024 - 53 then S754_finite sx m e'
              else S754_infinity sx
  | _ => S754_nan
  end.

Lemma describes_of_loc N D m l :
  0 <= m -> located N D m l -> describes N D (shr_record_of_loc m l).
Proof.
  intros Hm Hl. split.
  - rewrite shr_m_shr_record_of_loc. exact Hm.
  - rewrite shr_m_shr_record_of_loc, loc_of_shr_record_of_loc. exact Hl.
Qed.

Lemma binary_round_aux_spec (sx : bool) (mx ex : Z) (lx : location) (N D : Z) :
  0 < mx -> 0 < D -> located N D mx lx ->
  ex <= fexp 53 1024 (Zdigits2 mx + ex) ->
  exists z,
    is_rne N (D * 2 ^ (fexp 53 1024 (Zdigits2 mx + ex) - ex)) z
    /\ binary_round_aux 53 1024 sx mx ex lx
       = pack sx z (fexp 53 1024 (Zdigits2 mx + ex)).
Proof.
  intros Hm HD Hl He.
  set (e1 := fexp 53 1024 (Zdigits2 mx + ex)) in *.
  assert (Hd : describes N D (shr_record_of_loc mx lx))
    by (apply describes_of_loc; [lia|exact Hl]).
  destruct (shr_describes N D _ ex (e1 - ex) HD ltac:(lia) Hd)
    as (Hd' & Em & Ee).
  unfold binary_round_aux, shr_fexp. fold e1.
  destruct (shr (shr_record_of_loc mx lx) ex (e1 - ex)) as [mrs' e'] eqn:Es.
  cbn [fst snd] in Hd', Em, Ee.
  exists (round_nearest_even (shr_m mrs') (loc_of_shr_record mrs')).
  split.
  - apply round_nearest_even_rne; [|exact Hd'].
    pose proof (Z.pow_pos_nonneg 2 (e1 - ex) ltac:(lia) ltac:(lia)). nia.
  - replace e' with e1 by lia. reflexivity.
Qed.

Lemma fexp_eq e : fexp 53 1024 e = Z.max (e - 53) (-1074).
Proof.
  reflexivity.
Qed.

(** A mantissa of at most 53 digits at an exponent in range is kept. *)
Lemma pack_keep (sx : bool) (z e : Z) :
  0 < z -> z < 2 ^ 53 -> -1074 <= e <= 971 ->
  pack sx z e = S754_finite sx (Z.to_pos z) e.
Proof.
  intros Hz Hlt He. unfold pack, shr_fexp.
  assert (Hdig : Zdigits2 z <= 53).
  { pose proof (Zdigits2_bounds z Hz) as [Hlo _].
    destruct (Z_le_gt_dec (Zdigits2 z) 53) as [|Hgt]; auto.
    assert (2 ^ 53 <= 2 ^ (Zdigits2 z - 1)) by (apply Z.pow_le_mono_r; lia).
    lia. }
  rewrite shr_nonpos by (rewrite fexp_eq; lia).
  rewrite shr_m_shr_record_of_loc.
  destruct z as [|p|p]; try lia.
  replace (e <=? 1024 - 53) with true by (symmetry; apply Z.leb_le; lia).
  reflexivity.
Qed.

(** A carry: the mantissa [2^53] becomes [2^52] one exponent higher. *)
Lemma pack_carry (sx : bool) (e : Z) :
  -1074 <= e <= 970 ->
  pack sx (2 ^ 53) e = S754_finite sx (Z.to_pos (2 ^ 52)) (e + 1).
Proof.
  intros He. unfold pack, shr_fexp.
  replace (Zdigits2 (2 ^ 53)) with 54 by reflexivity.
  replace (fexp 53 1024 (54 + e) - e) with 1 by (rewrite fexp_eq; lia).
  cbn [shr shr_record_of_loc iter_pos shr_1 shr_m].
  replace (e + 1 <=? 1024 - 53) with true by (symmetry; apply Z.leb_le; lia).
  reflexivity.
Qed.

Lemma pack_zero (sx : bool) (e : Z) : pack sx 0 e = S754_zero sx.
Proof.
  unfold pack, shr_fexp. cbn [Zdigits2].
  destruct (fexp 53 1024 (0 + e) - e) as [|p|p] eqn:E; cbn [shr]; try reflexivity.
  assert (H : describes 0 1 (shr_record_of_loc 0 loc_Exact))
    by (split; cbn; lia).
  destruct (iter_shr_describes 0 p 1 _ ltac:(lia) H) as [_ Em].
  cbv iota beta. rewrite Em, shr_m_shr_record_of_loc, Z.div_0_l.
  - reflexivity.
  - pose proof (Z.pow_pos_nonneg 2 (Zpos p) ltac:(lia) ltac:(lia)). lia.
Qed.

(** ** Division of integers *)

Lemma new_location_located (b q r : Z) :
  0 < b -> 0 <= r < b -> located (q * b + r) b q (new_location b r).
Proof.
  intros Hb Hr. unfold new_location, new_location_even, new_location_odd.
  destruct (Z.even b) eqn:Ev; destruct (r =? 0) eqn:E0;
    try (apply Z.eqb_eq in E0; subst r; cbn [located]; lia);
    apply Z.eqb_neq in E0.
  - destruct (Z.compare_spec (2 * r) b); cbn [located]; lia.
  - assert (Hodd : b = 2 * (b / 2) + 1).
    { rewrite (Z.div_mod b 2) at 1 by lia. rewrite Zmod_odd, <- Z.negb_even, Ev.
      reflexivity. }
    destruct (Z.compare_spec (2 * r + 1) b); cbn [located]; lia.
Qed.

(** The nearest integer to [a * 2^t / b] has the integer part of [a / b]
    above its lowest [t] bits, as long as [b] has at most [t + 1] bits. *)
Lemma rne_floor (a b t z : Z) :
  0 < b -> 0 <= a -> 0 <= t -> b < 2 ^ (t + 1) ->
  is_rne (a * 2 ^ t) b z -> z / 2 ^ t = a / b.
Proof.
  intros Hb Ha Ht Hbt Hz.
  pose proof (Z.pow_pos_nonneg 2 t ltac:(lia) Ht) as HT.
  rewrite Z.pow_add_r, Z.pow_1_r in Hbt by lia.
  set (T := 2 ^ t) in *.
  pose proof (Z.div_mod a b ltac:(lia)) as Hab.
  pose proof (Z.mod_pos_bound a b Hb) as Hr.
  set (q0 := a / b) in *. set (r0 := a mod b) in *.
  apply is_rne_bounds in Hz; [|exact Hb].
  clearbody T q0 r0.
  assert (HaT : a * T = b * q0 * T + r0 * T) by (rewrite Hab at 1; ring).
  assert (Hr1 : 0 <= r0 * T) by nia.
  assert (Hr2 : (r0 + 1) * T <= b * T) by nia.
  symmetry. apply Z.div_unique with (r := z - T * q0).
  - left. split.
    + assert (- b <= 2 * (z - T * q0) * b) by lia. nia.
    + assert (2 * (z - T * q0) * b < 2 * T * b) by lia. nia.
  - ring.
Qed.

Lemma int_of_float_pack (sx : bool) (z e : Z) :
  0 < z <= 2 ^ 53 -> -1074 <= e <= 0 ->
  PyFloat.int_of_float (pack sx z e) = Ok (cond_Zopp sx (z / 2 ^ (- e))).
Proof.
  intros Hz He. destruct (Z.eq_dec z (2 ^ 53)) as [->|Hne].
  - rewrite pack_carry by lia. cbn [PyFloat.int_of_float].
    rewrite Z2Pos.id by reflexivity. do 2 f_equal.
    destruct (Z.leb_spec 0 (e + 1)) as [Hp|Hn].
    + assert (e = 0 \/ e = -1) as [-> | ->] by lia; reflexivity.
    + replace (- e) with (1 + (- (e + 1))) by lia.
      rewrite Z.pow_add_r by lia. change (2 ^ 53) with (2 ^ 1 * 2 ^ 52).
      pose proof (Z.pow_pos_nonneg 2 (- (e + 1)) ltac:(lia) ltac:(lia)).
      rewrite Z.div_mul_cancel_l by lia. reflexivity.
  - rewrite pack_keep by lia. cbn [PyFloat.int_of_float].
    rewrite Z2Pos.id by lia. do 2 f_equal.
    destruct (Z.leb_spec 0 e) as [Hp|Hn]; [|reflexivity].
    assert (e = 0) as -> by lia. cbn. rewrite Z.div_1_r. ring.
Qed.

Lemma pow2_split (x y : Z) : 0 <= x -> 0 <= y -> 2 ^ (x + y) = 2 ^ x * 2 ^ y.
Proof.
  intros; apply Z.pow_add_r; assumption.
Qed.

Lemma digits_le_53 (a : Z) : 0 < a < 2 ^ 53 -> 1 <= Zdigits2 a <= 53.
Proof.
  intros [Ha Hlt]. pose proof (Zdigits2_bounds a Ha) as [Hlo Hhi].
  rewrite Zdigits2_log2 in * by exact Ha.
  pose proof (Z.log2_nonneg a). split; [lia|].
  destruct (Z_le_gt_dec (Z.log2 a + 1) 53) as [|Hgt]; auto.
  assert (2 ^ 53 <= 2 ^ (Z.log2 a + 1 - 1)) by (apply Z.pow_le_mono_r; lia).
  lia.
Qed.

Lemma quotient_size (m b q r B P : Z) :
  0 < B -> B <= b < 2 * B -> 0 < P ->
  2 * P * B <= m < 4 * P * B ->
  m = b * q + r -> 0 <= r < b ->
  P <= q < 4 * P.
Proof.
  intros HB Hb HP Hm E Hr. split.
  - assert (P * b < (q + 1) * b) by nia. nia.
  - assert (q * b < 4 * P * b) by nia. nia.
Qed.

Lemma rounded_size (N b K q r P z : Z) :
  0 < b -> 0 < K -> 0 < P ->
  N = b * q + r -> 0 <= r < b -> P * K <= q < 2 * P * K ->
  is_rne N (b * K) z -> P <= z <= 2 * P.
Proof.
  intros Hb HK HP E Hr Hq Hz.
  assert (HD : 0 < b * K) by (apply Z.mul_pos_pos; assumption).
  split.
  - apply (is_rne_ge _ _ _ _ HD Hz). nia.
  - apply (is_rne_le _ _ _ _ HD Hz). nia.
Qed.

Lemma div_core (a b : Z) :
  0 < a < 2 ^ 53 -> 0 < b < 2 ^ 53 ->
  let s := 53 + Zdigits2 b - Zdigits2 a in
  SFdiv_core_binary 53 1024 a 0 b 0
  = (a * 2 ^ s / b, - s, new_location b ((a * 2 ^ s) mod b)).
Proof.
  intros Ha Hb s.
  pose proof (digits_le_53 a Ha) as Hd1. pose proof (digits_le_53 b Hb) as Hd2.
  unfold SFdiv_core_binary. rewrite fexp_eq.
  replace (Z.min (Z.max (Zdigits2 a + 0 - (Zdigits2 b + 0) - 53) (-1074)) (0 - 0))
    with (- s) by (unfold s; lia).
  replace (0 - 0 - - s) with s by lia.
  assert (Hs : 1 <= s) by (unfold s; lia).
  replace (match s with Z0 => a | Zpos _ => Z.shiftl a s | Zneg _ => 0 end)
    with (a * 2 ^ s)
    by (destruct s as [|p|p] eqn:Es; try lia; rewrite Z.shiftl_mul_pow2 by lia;
        reflexivity).
  unfold Z.div, Z.modulo. destruct (Z.div_eucl (a * 2 ^ s) b). reflexivity.
Qed.

(** The quotient of two positive integers below [2^53], rounded to a
    double of either sign, is finite, and its integer part is the floor of
    the exact quotient: the rounding never reaches the next integer. *)
Lemma divide_round_floor (sx : bool) (a b : Z) :
  0 < a < 2 ^ 53 -> 0 < b < 2 ^ 53 ->
  let '(mz, ez, lz) := SFdiv_core_binary 53 1024 a 0 b 0 in
  exists m e,
    binary_round_aux 53 1024 sx mz ez lz = S754_finite sx m e
    /\ PyFloat.int_of_float (S754_finite sx m e) = Ok (cond_Zopp sx (a / b)).
Proof.
  intros Ha Hb.
  pose proof (digits_le_53 a Ha) as Hd1. pose proof (digits_le_53 b Hb) as Hd2.
  pose proof (Zdigits2_bounds a ltac:(lia)) as Ba.
  pose proof (Zdigits2_bounds b ltac:(lia)) as Bb.
  rewrite (div_core a b Ha Hb).
  set (d1 := Zdigits2 a) in *. set (d2 := Zdigits2 b) in *.
  set (s := 53 + d2 - d1).
  assert (Hs : 1 <= s <= 105) by (unfold s; lia).
  set (m := a * 2 ^ s).
  pose proof (Z.div_mod m b ltac:(lia)) as Hdm.
  pose proof (Z.mod_pos_bound m b ltac:(lia)) as Hr.
  set (q := m / b) in *. set (r := m mod b) in *.
  assert (Hm : 2 * 2 ^ 52 * 2 ^ (d2 - 1) <= m < 4 * 2 ^ 52 * 2 ^ (d2 - 1)).
  { assert (E1 : 2 * 2 ^ 52 * 2 ^ (d2 - 1) = 2 ^ (d1 - 1) * 2 ^ s).
    { change 2 with (2 ^ 1) at 1. rewrite <- !pow2_split by lia.
      f_equal. unfold s. lia. }
    assert (E2 : 4 * 2 ^ 52 * 2 ^ (d2 - 1) = 2 ^ d1 * 2 ^ s).
    { change 4 with (2 ^ 2) at 1. rewrite <- !pow2_split by lia.
      f_equal. unfold s. lia. }
    rewrite E1, E2. unfold m.
    pose proof (Z.pow_pos_nonneg 2 s ltac:(lia) ltac:(lia)) as HS.
    split.
    - apply Z.mul_le_mono_nonneg_r; lia.
    - apply Z.mul_lt_mono_pos_r; lia. }
  assert (Hq : 2 ^ 52 <= q < 4 * 2 ^ 52).
  { apply (quotient_size m b q r (2 ^ (d2 - 1)) (2 ^ 52)); auto; try lia;
      try (apply Z.pow_pos_nonneg; lia).
    replace (2 * 2 ^ (d2 - 1)) with (2 ^ d2); [lia|].
    rewrite <- (Z.pow_succ_r 2 (d2 - 1)) by lia. f_equal. lia. }
  set (dq := Zdigits2 q).
  assert (Hdq : (dq = 53 /\ q < 2 ^ 53) \/ (dq = 54 /\ 2 ^ 53 <= q)).
  { destruct (Z_lt_ge_dec q (2 ^ 53)) as [Hlt|Hge].
    - left. split; [|exact Hlt]. apply Zdigits2_unique; lia.
    - right. split; [|lia]. apply Zdigits2_unique; lia. }
  destruct (binary_round_aux_spec sx q (- s) (new_location b r) m b)
    as (z & Hz & Hres).
  { lia. }
  { lia. }
  { rewrite Hdm, (Z.mul_comm b q). apply new_location_located; lia. }
  { fold dq. rewrite fexp_eq. lia. }
  fold dq in Hz, Hres. rewrite fexp_eq in Hz, Hres. rewrite Hres.
  set (t := 106 + d2 - d1 - dq).
  replace (Z.max (dq + - s - 53) (-1074)) with (- t) in *
    by (unfold t, s; lia).
  replace (- t - - s) with (dq - 53) in Hz by (unfold t, s; lia).
  assert (Ht : 0 <= t <= 105) by (unfold t; lia).
  assert (HK : 0 < 2 ^ (dq - 53)) by (apply Z.pow_pos_nonneg; lia).
  assert (Hz' : is_rne (a * 2 ^ t) b z).
  { apply (is_rne_scale _ _ (2 ^ (dq - 53))); [exact HK|].
    replace (a * 2 ^ t * 2 ^ (dq - 53)) with m; [exact Hz|].
    unfold m. rewrite <- Z.mul_assoc, <- pow2_split by lia. do 2 f_equal.
    unfold t, s. lia. }
  assert (Hzr : 2 ^ 52 <= z <= 2 * 2 ^ 52).
  { apply (rounded_size m b (2 ^ (dq - 53)) q r (2 ^ 52) z); auto; try lia.
    destruct Hdq as [[E Hlt]|[E Hge]]; rewrite E.
    - change (2 ^ (53 - 53)) with 1. lia.
    - change (2 ^ (54 - 53)) with 2. lia. }
  assert (Hfin : exists mz ez, pack sx z (- t) = S754_finite sx mz ez).
  { destruct (Z.eq_dec z (2 ^ 53)) as [->|Hne].
    - rewrite pack_carry by lia. eauto.
    - rewrite pack_keep by lia. eauto. }
  destruct Hfin as (mz & ez & Hfin).
  exists mz, ez. split; [exact Hfin|].
  rewrite <- Hfin, int_of_float_pack by lia. do 2 f_equal.
  replace (- - t) with t by lia. apply rne_floor; try lia; [|exact Hz'].
  assert (2 ^ d2 <= 2 ^ (t + 1)) by (apply Z.pow_le_mono_r; unfold t; lia).
  lia.
Qed.

(** [int(a / b)] for integers of magnitude below [2^53], [b] not zero:
    the division raises nothing and the result is the quotient truncated
    toward zero. *)
Theorem true_divide_trunc (a b : Z) :
  Z.abs a < 2 ^ 53 -> 0 < Z.abs b < 2 ^ 53 ->
  exists x, PyFloat.int_true_divide a b = Ok x
            /\ PyFloat.int_of_float x = Ok (Z.quot a b).
Proof.
  intros Ha Hb. unfold PyFloat.int_true_divide.
  replace (b =? 0) with false by (symmetry; apply Z.eqb_neq; lia).
  destruct (Z.eqb_spec a 0) as [->|Hne].
  - eexists. split; [reflexivity|]. rewrite Z.quot_0_l by lia. reflexivity.
  - pose proof (divide_round_floor (xorb (a <? 0) (b <? 0)) (Z.abs a) (Z.abs b)
                  ltac:(lia) ltac:(lia)) as H.
    unfold PyFloat.prec, PyFloat.emax.
    destruct (SFdiv_core_binary 53 1024 (Z.abs a) 0 (Z.abs b) 0) as [[mz ez] lz].
    destruct H as (m & e & -> & Hint).
    eexists. split; [reflexivity|]. rewrite Hint. f_equal.
    rewrite <- (Z.quot_div_nonneg (Z.abs a) (Z.abs b)) by lia.
    destruct (Z.ltb_spec a 0), (Z.ltb_spec b 0); cbn [xorb cond_Zopp].
    + rewrite !Z.abs_neq by lia. rewrite Z.quot_opp_opp by lia. reflexivity.
    + rewrite Z.abs_neq, Z.abs_eq by lia. rewrite Z.quot_opp_l by lia. lia.
    + rewrite Z.abs_eq, Z.abs_neq by lia. rewrite Z.quot_opp_r by lia. lia.
    + rewrite !Z.abs_eq by lia. reflexivity.
Qed.

(** For positive integers the truncation is the floor. *)
Corollary true_divide_floor (a b : Z) :
  0 < a < 2 ^ 53 -> 0 < b < 2 ^ 53 ->
  exists x, PyFloat.int_true_divide a b = Ok x
            /\ PyFloat.int_of_float x = Ok (a / b).
Proof.
  intros Ha Hb. rewrite <- Z.quot_div_nonneg by lia.
  apply true_divide_trunc; lia.
Qed.



(** ** Normalisation and multiplication *)

Lemma iter_xO (d : positive) (m : positive) :
  Zpos (Pos.iter xO m d) = Zpos m * 2 ^ Zpos d.
Proof.
  revert m. induction d as [|d IH] using Pos.peano_ind; intros m.
  - cbn [Pos.iter]. change (Z.pos m~0) with (2 * Z.pos m). change (2 ^ 1) with 2.
    ring.
  - rewrite Pos.iter_succ, Pos2Z.inj_succ, Z.pow_succ_r by lia.
    change (Z.pos (Pos.iter xO m d)~0) with (2 * Z.pos (Pos.iter xO m d)).
    rewrite IH. ring.
Qed.

Lemma shl_align_spec (m : positive) (e e' : Z) :
  e' <= e ->
  let '(mz, ez) := shl_align m e e' in
  Zpos mz = Zpos m * 2 ^ (e - e') /\ ez = e'.
Proof.
  intros He. unfold shl_align.
  destruct (e' - e) as [|p|p] eqn:E; try lia.
  - replace (e - e') with 0 by lia. split; lia.
  - rewrite iter_xO. replace (e - e') with (Zpos p) by lia. split; reflexivity.
Qed.

(** A positive integer below [2^53], scaled by [2^e], is representable:
    normalisation shifts it to 53 digits and rounds nothing away. *)
Lemma binary_normalize_exact (k e : Z) :
  0 < k < 2 ^ 53 -> -1021 <= Zdigits2 k + e <= 1024 ->
  binary_normalize 53 1024 k e false
  = S754_finite false (Z.to_pos (k * 2 ^ (53 - Zdigits2 k)))
                (Zdigits2 k + e - 53)
  /\ 2 ^ 52 <= k * 2 ^ (53 - Zdigits2 k) < 2 ^ 53.
Proof.
  intros Hk He.
  pose proof (digits_le_53 k Hk) as Hd.
  pose proof (Zdigits2_bounds k ltac:(lia)) as Bk.
  set (d := Zdigits2 k) in *.
  assert (Hrange : 2 ^ 52 <= k * 2 ^ (53 - d) < 2 ^ 53).
  { assert (E1 : 2 ^ 52 = 2 ^ (d - 1) * 2 ^ (53 - d))
      by (rewrite <- pow2_split by lia; f_equal; lia).
    assert (E2 : 2 ^ 53 = 2 ^ d * 2 ^ (53 - d))
      by (rewrite <- pow2_split by lia; f_equal; lia).
    pose proof (Z.pow_pos_nonneg 2 (53 - d) ltac:(lia) ltac:(lia)).
    rewrite E1, E2. split.
    - apply Z.mul_le_mono_nonneg_r; lia.
    - apply Z.mul_lt_mono_pos_r; lia. }
  split; [|exact Hrange].
  destruct k as [|p|p]; try lia.
  cbn [binary_normalize]. unfold binary_round.
  change (Z.pos (digits2_pos p)) with (Zdigits2 (Zpos p)). fold d.
  rewrite fexp_eq.
  replace (Z.max (d + e - 53) (-1074)) with (d + e - 53) by lia.
  pose proof (shl_align_spec p e (d + e - 53) ltac:(lia)) as Hsh.
  destruct (shl_align p e (d + e - 53)) as [mz ez]. destruct Hsh as [Emz ->].
  replace (e - (d + e - 53)) with (53 - d) in Emz by lia.
  assert (Hdz : Zdigits2 (Zpos mz) = 53)
    by (apply Zdigits2_unique; [rewrite Emz; exact Hrange|lia]).
  destruct (binary_round_aux_spec false (Zpos mz) (d + e - 53) loc_Exact
              (Zpos mz) 1) as (z & Hz & Hres); try lia.
  { cbn [located]. lia. }
  { rewrite Hdz, fexp_eq. lia. }
  rewrite Hdz, fexp_eq in Hz, Hres.
  replace (Z.max (53 + (d + e - 53) - 53) (-1074)) with (d + e - 53) in *
    by lia.
  replace (d + e - 53 - (d + e - 53)) with 0 in Hz by lia.
  change (1 * 2 ^ 0) with 1 in Hz.
  assert (z = Zpos mz).
  { apply (is_rne_unique (Zpos mz) 1); [lia|exact Hz|].
    replace (Zpos mz) with (Zpos mz * 1) at 1 by lia. apply is_rne_exact. lia. }
  subst z. rewrite Hres, pack_keep by lia.
  rewrite Emz. reflexivity.
Qed.

(** ** Samples *)

Lemma random_bits_range (w1 w2 : Z) :
  0 <= PyRandom.random_bits w1 w2 < 2 ^ 53.
Proof.
  unfold PyRandom.random_bits. rewrite !Z.shiftr_div_pow2 by lia.
  pose proof (Z.mod_pos_bound w1 (2 ^ 32) ltac:(lia)) as H1.
  pose proof (Z.mod_pos_bound w2 (2 ^ 32) ltac:(lia)) as H2.
  assert (0 <= (w1 mod 2 ^ 32) / 2 ^ 5 < 2 ^ 27).
  { split; [apply Z.div_pos; lia|]. apply Z.div_lt_upper_bound; lia. }
  assert (0 <= (w2 mod 2 ^ 32) / 2 ^ 6 < 2 ^ 26).
  { split; [apply Z.div_pos; lia|]. apply Z.div_lt_upper_bound; lia. }
  lia.
Qed.

(** The mantissa of the double 100.0, at exponent -46. *)
Definition hundred_mantissa : Z := 100 * 2 ^ 46.

Lemma hundred_eq :
  PyFloat.hundred = S754_finite false (Z.to_pos hundred_mantissa) (-46).
Proof.
  reflexivity.
Qed.

(** A canonical positive double is below 100.0 when its exponent is below
    -46, or equal to it with a smaller mantissa. *)
Definition below_hundred (x : spec_float) : Prop :=
  exists m e, x = S754_finite false m e
              /\ (e < -46 \/ (e = -46 /\ Zpos m < hundred_mantissa)).

Lemma below_hundred_in_range (x : spec_float) :
  below_hundred x -> PyFloat.in_0_100 x = true.
Proof.
  intros (m & e & -> & H). unfold PyFloat.in_0_100.
  rewrite hundred_eq. unfold SFleb, SFltb. cbn [SFcompare PyFloat.zero andb].
  destruct H as [H|[-> H]].
  - replace (e ?= -46) with Lt by (symmetry; apply Z.compare_lt_iff; lia).
    reflexivity.
  - rewrite Z.compare_refl.
    change (Pos.compare_cont Eq m (Z.to_pos hundred_mantissa))
      with (Pos.compare m (Z.to_pos hundred_mantissa)).
    assert (Hc : (m ?= Z.to_pos hundred_mantissa)%positive = Lt) by exact H.
    rewrite Hc. reflexivity.
Qed.

Lemma mul_hundred_below (mk : positive) (ek : Z) :
  2 ^ 52 <= Zpos mk < 2 ^ 53 -> -105 <= ek <= -53 ->
  below_hundred (PyFloat.mul PyFloat.hundred (S754_finite false mk ek)).
Proof.
  intros Hm He. rewrite hundred_eq. unfold PyFloat.mul, SFmul.
  unfold PyFloat.prec, PyFloat.emax. cbn [xorb].
  set (P := Zpos (Z.to_pos hundred_mantissa * mk)).
  assert (EP : P = hundred_mantissa * Zpos mk).
  { unfold P. rewrite Pos2Z.inj_mul, Z2Pos.id by (unfold hundred_mantissa; lia).
    reflexivity. }
  unfold hundred_mantissa in EP.
  assert (HP : 2 ^ 104 <= P < 2 ^ 106) by lia.
  assert (HPu : P <= 100 * 2 ^ 46 * (2 ^ 53 - 1)) by lia.
  clearbody P.
  set (dP := Zdigits2 P).
  assert (HdP : (dP = 105 /\ P < 2 ^ 105) \/ (dP = 106 /\ 2 ^ 105 <= P)).
  { destruct (Z_lt_ge_dec P (2 ^ 105)) as [Hlt|Hge].
    - left. split; [|exact Hlt]. apply Zdigits2_unique; lia.
    - right. split; [|lia]. apply Zdigits2_unique; lia. }
  destruct (binary_round_aux_spec false P (-46 + ek) loc_Exact P 1)
    as (z & Hz & Hres); try lia.
  { cbn [located]. lia. }
  { fold dP. rewrite fexp_eq. lia. }
  fold dP in Hz, Hres. rewrite fexp_eq in Hz, Hres. rewrite Hres.
  replace (Z.max (dP + (-46 + ek) - 53) (-1074)) with (dP + ek - 99) in * by lia.
  replace (dP + ek - 99 - (-46 + ek)) with (dP - 53) in Hz by lia.
  rewrite Z.mul_1_l in Hz.
  destruct HdP as [[E Hlt]|[E Hge]]; rewrite E in *.
  - (* 105 digits: the exponent is at most -47 *)
    change (2 ^ (105 - 53)) with (2 ^ 52) in Hz.
    apply is_rne_bounds in Hz; [|lia].
    assert (Hzr : 2 ^ 52 <= z <= 2 ^ 53) by lia.
    destruct (Z.eq_dec z (2 ^ 53)) as [->|Hne].
    + rewrite pack_carry by lia. eexists _, _. split; [reflexivity|].
      destruct (Z.eq_dec ek (-53)) as [->|]; [right|left; lia].
      split; [reflexivity|]. unfold hundred_mantissa. reflexivity.
    + rewrite pack_keep by lia. eexists _, _. split; [reflexivity|].
      left. lia.
  - (* 106 digits: the mantissa stays below that of 100.0 *)
    change (2 ^ (106 - 53)) with (2 ^ 53) in Hz.
    apply is_rne_bounds in Hz; [|lia].
    assert (Hzr : 2 ^ 52 <= z < 100 * 2 ^ 46) by lia.
    rewrite pack_keep by lia. eexists _, _. split; [reflexivity|].
    destruct (Z.eq_dec ek (-53)) as [->|]; [right|left; lia].
    split; [reflexivity|]. rewrite Z2Pos.id by lia. unfold hundred_mantissa. lia.
Qed.

(** [random.uniform(0, 100)] never returns a double outside [[0, 100)],
    whatever the two generator words are. *)
Theorem uniform_0_100_range (w1 w2 : Z) :
  exists v, PyRandom.uniform 0 100 w1 w2 = Ok v
            /\ PyFloat.in_0_100 v = true.
Proof.
  exists (PyFloat.add PyFloat.zero
            (PyFloat.mul PyFloat.hundred (PyRandom.random w1 w2))).
  split; [reflexivity|].
  unfold PyRandom.random, PyFloat.prec, PyFloat.emax.
  pose proof (random_bits_range w1 w2) as Hk.
  set (k := PyRandom.random_bits w1 w2) in *.
  destruct (Z.eq_dec k 0) as [->|Hne]; [reflexivity|].
  pose proof (digits_le_53 k ltac:(lia)) as Hd.
  destruct (binary_normalize_exact k (-53) ltac:(lia) ltac:(lia)) as [E Hr].
  rewrite E.
  pose proof (mul_hundred_below (Z.to_pos (k * 2 ^ (53 - Zdigits2 k)))
                (Zdigits2 k + -53 - 53)) as Hb.
  rewrite Z2Pos.id in Hb by lia.
  specialize (Hb Hr ltac:(lia)).
  apply below_hundred_in_range.
  destruct Hb as (m & e & Em & Hme). rewrite Em.
  exists m, e. split; [reflexivity|exact Hme].
Qed.

(** ** TimeGrid: when it succeeds, what it raises *)

(** The conditions under which lines 46-47 raise nothing. *)
Definition window_in_range (cfg : config) : bool :=
  (- max_delta_days <=? last_num_days cfg)
  && (last_num_days cfg <=? max_delta_days).

Definition start_in_range (cfg : config) (w : world) : bool :=
  (0 <=? now w - last_num_days cfg * us_per_day)
  && (now w - last_num_days cfg * us_per_day <? max_ordinal * us_per_day).

Definition interval_in_range (cfg : config) : bool :=
  (- max_delta_days * 1440 <=? data_interval_minutes cfg)
  && (data_interval_minutes cfg <=? max_delta_days * 1440 + 1439).

Lemma timedelta_days_spec (d : Z) :
  timedelta_days d =
  if (- max_delta_days <=? d) && (d <=? max_delta_days)
  then Ok (d * us_per_day) else Raise OverflowError.
Proof.
  unfold timedelta_days, check_delta.
  rewrite Z.div_mul by (unfold us_per_day, us_per_second; lia). reflexivity.
Qed.

Lemma timedelta_minutes_spec (m : Z) :
  timedelta_minutes m =
  if (- max_delta_days * 1440 <=? m) && (m <=? max_delta_days * 1440 + 1439)
  then Ok (m * 60 * us_per_second) else Raise OverflowError.
Proof.
  unfold timedelta_minutes, check_delta.
  assert (E : m * 60 * us_per_second / us_per_day = m / 1440).
  { unfold us_per_day, us_per_second.
    replace (m * 60 * 1000000) with (m * 60000000) by ring.
    change (86400 * 1000000) with (1440 * 60000000).
    rewrite Z.mul_comm, (Z.mul_comm 1440).
    apply Z.div_mul_cancel_l; lia. }
  rewrite E.
  pose proof (Z.div_mod m 1440 ltac:(lia)) as Hdm.
  pose proof (Z.mod_pos_bound m 1440 ltac:(lia)) as Hr.
  match goal with
  | |- (if ?c1 then _ else _) = (if ?c2 then _ else _) =>
      assert (Hc : c1 = c2); [|rewrite Hc; reflexivity]
  end.
  apply Bool.eq_iff_eq_true. rewrite !andb_true_iff, !Z.leb_le.
  unfold max_delta_days. lia.
Qed.

Lemma TimeGrid_closed_form (cfg : config) (w : world) :
  TimeGrid cfg w =
  if window_in_range cfg && start_in_range cfg w && interval_in_range cfg
  then if data_interval_minutes cfg =? 0 then Raise ZeroDivisionError
       else Ok {| start_time := now w - last_num_days cfg * us_per_day;
                  interval := data_interval_minutes cfg * 60 * us_per_second;
                  num_intervals := Z.quot (last_num_days cfg * 24 * 60)
                                          (data_interval_minutes cfg) |}
  else Raise OverflowError.
Proof.
  unfold TimeGrid, window_in_range, start_in_range, interval_in_range.
  rewrite timedelta_days_spec, timedelta_minutes_spec.
  set (W := last_num_days cfg). set (I := data_interval_minutes cfg).
  destruct ((- max_delta_days <=? W) && (W <=? max_delta_days)) eqn:HW;
    cbn [bind andb]; [|reflexivity].
  unfold sub_delta, check_datetime.
  destruct ((0 <=? now w - W * us_per_day)
            && (now w - W * us_per_day <? max_ordinal * us_per_day)) eqn:Hs;
    cbn [bind andb]; [|reflexivity].
  destruct ((- max_delta_days * 1440 <=? I)
            && (I <=? max_delta_days * 1440 + 1439)) eqn:HI;
    cbn [bind andb]; [|reflexivity].
  destruct (Z.eqb_spec I 0) as [E0|Hne].
  - rewrite E0. reflexivity.
  - apply andb_prop in HW as [HW1 HW2]. apply andb_prop in HI as [HI1 HI2].
    apply Z.leb_le in HW1, HW2, HI1, HI2. unfold max_delta_days in *.
    destruct (true_divide_trunc (W * 24 * 60) I) as (x & Hx & Hix);
      try lia.
    rewrite Hx. cbn [bind]. rewrite Hix. reflexivity.
Qed.

(** TimeGrid in closed form: it raises [OverflowError] when the window, the
    start instant or the interval leaves the range of [timedelta] and
    [datetime], [ZeroDivisionError] when the interval is zero, and otherwise
    yields the start [now - W days], the interval of [I] minutes and the
    count [W * 1440 / I] truncated toward zero. *)
Theorem TimeGrid_outcome (cfg : config) (w : world) :
  TimeGrid cfg w =
  if window_in_range cfg && start_in_range cfg w && interval_in_range cfg
  then if data_interval_minutes cfg =? 0 then Raise ZeroDivisionError
       else Ok {| start_time := now w - last_num_days cfg * us_per_day;
                  interval := data_interval_minutes cfg * 60 * us_per_second;
                  num_intervals := Z.quot (last_num_days cfg * 24 * 60)
                                          (data_interval_minutes cfg) |}
  else Raise OverflowError.
Proof.
  exact (TimeGrid_closed_form cfg w).
Qed.

(** When TimeGrid raises nothing for a positive window and interval, the
    number of timestamps is the floor of [W * 1440 / I]: a trailing partial
    interval is dropped. *)
Theorem TimeGrid_count_floor (cfg : config) (w : world) (g : time_grid) :
  TimeGrid cfg w = Ok g ->
  0 < last_num_days cfg -> 0 < data_interval_minutes cfg ->
  num_intervals g = last_num_days cfg * 1440 / data_interval_minutes cfg
  /\ num_intervals g * data_interval_minutes cfg <= last_num_days cfg * 1440
     < (num_intervals g + 1) * data_interval_minutes cfg.
Proof.
  intros Hg HW HI. rewrite TimeGrid_closed_form in Hg.
  destruct (window_in_range cfg && start_in_range cfg w && interval_in_range cfg);
    [|discriminate].
  destruct (data_interval_minutes cfg =? 0); [discriminate|].
  injection Hg as <-. cbn [num_intervals].
  replace (last_num_days cfg * 24 * 60) with (last_num_days cfg * 1440) by ring.
  rewrite Z.quot_div_nonneg by lia.
  split; [reflexivity|].
  pose proof (Z.div_mod (last_num_days cfg * 1440) (data_interval_minutes cfg)
                ltac:(lia)) as Hdm.
  pose proof (Z.mod_pos_bound (last_num_days cfg * 1440)
                (data_interval_minutes cfg) HI) as Hr.
  set (q := last_num_days cfg * 1440 / data_interval_minutes cfg) in *.
  nia.
Qed.

Lemma TimeGrid_count_floor_witness :
  num_intervals demo_grid
  = last_num_days demo_config * 1440 / data_interval_minutes demo_config
  /\ num_intervals demo_grid * data_interval_minutes demo_config
     <= last_num_days demo_config * 1440
     < (num_intervals demo_grid + 1) * data_interval_minutes demo_config.
Proof.
  apply (TimeGrid_count_floor demo_config demo_world demo_grid);
    vm_compute; reflexivity.
Defined.

(** ** Values of the rows *)

(** In a completed run, data row [k] (0-based) writes the [repr] of the
    double sampled from generator words [2k] and [2k + 1], and that double
    lies in [[0, 100)]: no two rows share a draw, and no value field is
    negative or reaches 100. *)
Theorem row_value_in_range (cfg : config) (w : world) (f : string) (k : nat) :
  run cfg w = Ok f -> (k < List.length (data_lines f))%nat ->
  field 7 (nth k (data_lines f) EmptyString)
  = PyFloat.repr (dtoa w) (sample_value w (2 * k))
  /\ sample w (2 * k) = Ok (sample_value w (2 * k))
  /\ PyFloat.in_0_100 (sample_value w (2 * k)) = true.
Proof.
  intros Hrun Hk.
  destruct (run_lines cfg w f Hrun) as (g & tss & Hg & Ht & Hl).
  unfold data_lines in *. rewrite Hl in *. cbn [tl] in *.
  rewrite length_map in Hk.
  set (e0 := {| channel := 0; subtopic := ""; publisher := 0; name := "" |}).
  set (d := (0, e0, PyFloat.zero) : message).
  rewrite (nth_indep _ EmptyString (row_text w d))
    by (rewrite length_map; exact Hk).
  rewrite (map_nth (row_text w)).
  rewrite length_all_rows in Hk.
  rewrite (nth_all_rows w (EntityCatalog cfg w) tss O k d 0 e0 Hk).
  cbn [Nat.add].
  assert (He : In (nth (k mod List.length (EntityCatalog cfg w))
                       (EntityCatalog cfg w) e0) (EntityCatalog cfg w)).
  { apply nth_In. apply Nat.mod_upper_bound. intros E. rewrite E in Hk. lia. }
  apply catalog_well_labelled in He.
  unfold field. rewrite fields_row_text by exact He.
  split; [reflexivity|]. split; [apply sample_ok|].
  destruct (uniform_0_100_range (genrand w (2 * k)) (genrand w (S (2 * k))))
    as (v & Hv & Hin).
  change (PyRandom.uniform 0 100 (genrand w (2 * k)) (genrand w (S (2 * k))))
    with (sample w (2 * k)) in Hv.
  rewrite sample_ok in Hv. injection Hv as <-. exact Hin.
Qed.

Lemma row_value_in_range_witness :
  field 7 (nth 5 (data_lines demo_file) EmptyString)
  = PyFloat.repr (dtoa demo_world) (sample_value demo_world (2 * 5))
  /\ sample demo_world (2 * 5) = Ok (sample_value demo_world (2 * 5))
  /\ PyFloat.in_0_100 (sample_value demo_world (2 * 5)) = true.
Proof.
  apply (row_value_in_range demo_config demo_world demo_file 5).
  - vm_compute; reflexivity.
  - vm_compute; lia.
Defined.

(** ** The catalog for arbitrary integers *)

Lemma catalog_size_max (cfg : config) (w : world) :
  Z.of_nat (List.length (EntityCatalog cfg w))
  = Z.max 0 (num_channels cfg) * Z.max 0 (num_subtopic cfg)
    * Z.max 0 (num_publisher cfg) * Z.max 0 (num_metrics cfg)
  /\ Z.of_nat (uuid_calls cfg w)
     = Z.max 0 (num_channels cfg)
       * (1 + Z.max 0 (num_subtopic cfg) * Z.max 0 (num_publisher cfg)).
Proof.
  rewrite EntityCatalog_spec, length_catalog_spec, uuid_calls_spec.
  unfold nC, nS, nP, nM.
  assert (H : forall x, Z.of_nat (Z.to_nat x) = Z.max 0 x) by (intros; lia).
  rewrite !Nat2Z.inj_mul, Nat2Z.inj_add, Nat2Z.inj_mul, !H.
  split; ring.
Qed.

(** For any six integers, also zero or negative ones, the catalog holds
    [max(0,C) * max(0,S) * max(0,P) * max(0,M)] entries, and building it
    calls [uuid4] [max(0,C) * (1 + max(0,S) * max(0,P))] times: once per
    channel and once per publisher, whether or not a publisher has any
    metric. *)
Theorem catalog_size_any (cfg : config) (w : world) :
  Z.of_nat (List.length (EntityCatalog cfg w))
  = Z.max 0 (num_channels cfg) * Z.max 0 (num_subtopic cfg)
    * Z.max 0 (num_publisher cfg) * Z.max 0 (num_metrics cfg)
  /\ Z.of_nat (uuid_calls cfg w)
     = Z.max 0 (num_channels cfg)
       * (1 + Z.max 0 (num_subtopic cfg) * Z.max 0 (num_publisher cfg)).
Proof.
  exact (catalog_size_max cfg w).
Qed.

(** ** Order of the catalog *)

Lemma nth_flat_map_block {A : Type} (f : nat -> list A) (c : nat) (d : A) :
  (forall y, List.length (f y) = c) ->
  forall n a x j,
    (x < n)%nat -> (j < c)%nat ->
    nth (x * c + j) (flat_map f (seq a n)) d = nth j (f (a + x)%nat) d.
Proof.
  intros Hlen n. induction n as [|n IH]; intros a x j Hx Hj; [lia|].
  cbn [seq flat_map]. destruct x as [|x].
  - rewrite app_nth1 by (rewrite Hlen; lia). rewrite Nat.add_0_r. reflexivity.
  - rewrite app_nth2 by (rewrite Hlen; simpl; lia). rewrite Hlen.
    replace (S x * c + j - c)%nat with (x * c + j)%nat by (simpl; lia).
    rewrite IH by lia. f_equal. f_equal. lia.
Qed.

Lemma mixed_radix_lt (a b x y : nat) :
  (a < x)%nat -> (b < y)%nat -> (a * y + b < x * y)%nat.
Proof.
  intros Ha Hb.
  assert (((a + 1) * y <= x * y)%nat) by (apply Nat.mul_le_mono_r; lia).
  lia.
Qed.

(** The catalog is ordered channel-major, then by subtopic, publisher and
    metric: the entry of channel [c], subtopic [s], publisher [p] and
    metric [m] (0-based) sits at index [((c * S + s) * P + p) * M + m]. *)
Theorem catalog_position (cfg : config) (w : world) (c s p m : nat) (d : entity) :
  (c < nC cfg)%nat -> (s < nS cfg)%nat -> (p < nP cfg)%nat ->
  (m < nM cfg)%nat ->
  nth (((c * nS cfg + s) * nP cfg + p) * nM cfg + m) (EntityCatalog cfg w) d
  = entity_at cfg w c s p m.
Proof.
  intros Hc Hs Hp Hm. rewrite EntityCatalog_spec. unfold catalog_spec.
  pose proof (mixed_radix_lt p m (nP cfg) (nM cfg) Hp Hm) as H1.
  pose proof (mixed_radix_lt s (p * nM cfg + m) (nS cfg) (nP cfg * nM cfg)
                Hs H1) as H2.
  replace (((c * nS cfg + s) * nP cfg + p) * nM cfg + m)%nat
    with (c * (nS cfg * (nP cfg * nM cfg))
          + ((s * (nP cfg * nM cfg)) + (p * nM cfg + m)))%nat by ring.
  rewrite (nth_flat_map_block (channel_block cfg w)
             (nS cfg * (nP cfg * nM cfg))%nat d
             (length_channel_block cfg w) (nC cfg) 0 c _ Hc H2).
  unfold channel_block.
  rewrite (nth_flat_map_block (subtopic_block cfg w (0 + c))
             (nP cfg * nM cfg)%nat d
             (length_subtopic_block cfg w (0 + c)%nat) (nS cfg) 0 s _ Hs H1).
  unfold subtopic_block.
  rewrite (nth_flat_map_block (publisher_block cfg w (0 + c) (0 + s))
             (nM cfg) d
             (length_publisher_block cfg w (0 + c)%nat (0 + s)%nat)
             (nP cfg) 0 p _ Hp Hm).
  unfold publisher_block. cbn [Nat.add].
  rewrite (nth_indep _ d (entity_at cfg w c s p 0))
    by (rewrite length_map, length_seq; exact Hm).
  rewrite (map_nth (entity_at cfg w c s p)), seq_nth by exact Hm.
  reflexivity.
Qed.

Lemma catalog_position_witness :
  nth (((1 * nS demo_config + 0) * nP demo_config + 1) * nM demo_config + 0)
      (EntityCatalog demo_config demo_world)
      {| channel := 0; subtopic := ""; publisher := 0; name := "" |}
  = entity_at demo_config demo_world 1 0 1 0.
Proof.
  apply (catalog_position demo_config demo_world 1 0 1 0); vm_compute; lia.
Defined.

(** ** What the script prints *)

(** Lines 24-27 and 44: the cardinalities and the size of the catalog. *)
Definition summary_messages (cfg : config) (w : world) : list string :=
  [ (str_int (num_channels cfg) ++ " channels")%string;
    (str_int (num_subtopic cfg) ++ " subtopics (per channel)")%string;
    (str_int (num_publisher cfg) ++ " publishers (per subtopic)")%string;
    (str_int (num_metrics cfg) ++ " names (per publisher)")%string;
    ("Total unique metric: "
     ++ str_int (Z.of_nat (List.length (EntityCatalog cfg w))))%string ].

(** Line 50. *)
Definition grid_message (cfg : config) (g : time_grid) : string :=
  ("generating data for last " ++ str_int (last_num_days cfg)
   ++ " days with data interval of " ++ str_int (data_interval_minutes cfg)
   ++ " minutes which is " ++ str_int (num_intervals g) ++ " timestamps")%string.

(** Line 54: the file sits beside the script. *)
Definition data_file_path (script_directory : string) : string :=
  (script_directory ++ "/messages.csv")%string.

(** Line 68, for a catalog of [len_rows] entries. *)
Definition final_message (script_directory : string) (len_rows : Z)
  (g : time_grid) : string :=
  ("Finished writing CSV at " ++ data_file_path script_directory ++ " with "
   ++ str_int (len_rows * num_intervals g) ++ " rows = " ++ str_int len_rows
   ++ " unique metrics (channel + subtopic + publisher + metric) x "
   ++ str_int (num_intervals g) ++ " timestamps")%string.

(** Everything the script prints, up to the exception that ends the run
    if there is one. *)
Definition printed (script_directory : string) (cfg : config) (w : world)
  : list string :=
  let catalog := EntityCatalog cfg w in
  summary_messages cfg w ++
  match TimeGrid cfg w with
  | Raise _ => []
  | Ok g =>
      grid_message cfg g ::
      match RowEmitter w g catalog with
      | Raise _ => []
      | Ok _ => [final_message script_directory
                   (Z.of_nat (List.length catalog)) g]
      end
  end.

Lemma data_rows_of_run cfg w g f :
  TimeGrid cfg w = Ok g -> run cfg w = Ok f ->
  Z.of_nat (List.length (data_lines f))
  = Z.of_nat (List.length (EntityCatalog cfg w)) * Z.max 0 (num_intervals g).
Proof.
  intros Hg Hrun.
  destruct (run_lines cfg w f Hrun) as (g' & tss & Hg' & Ht & Hl).
  assert (g' = g) by congruence. subst g'.
  unfold data_lines. rewrite Hl. cbn [tl].
  rewrite length_map, length_all_rows, (length_grid_ns w g tss Ht).
  rewrite Nat2Z.inj_mul. lia.
Qed.

(** A completed run prints the five summary lines, the grid line and the
    final line; the file holds [len(rows) * max(0, num_intervals)] data
    rows; and when the timestamp count is not negative, the row count
    announced by the final line is the number of data rows in the file. *)
Theorem final_message_row_count (dir : string) (cfg : config) (w : world)
  (g : time_grid) (f : string) :
  TimeGrid cfg w = Ok g -> run cfg w = Ok f ->
  let len_rows := Z.of_nat (List.length (EntityCatalog cfg w)) in
  printed dir cfg w
  = summary_messages cfg w ++ [grid_message cfg g; final_message dir len_rows g]
  /\ Z.of_nat (List.length (data_lines f)) = len_rows * Z.max 0 (num_intervals g)
  /\ (0 <= num_intervals g ->
      final_message dir len_rows g
      = ("Finished writing CSV at " ++ dir ++ "/messages.csv with "
         ++ str_int (Z.of_nat (List.length (data_lines f))) ++ " rows = "
         ++ str_int len_rows
         ++ " unique metrics (channel + subtopic + publisher + metric) x "
         ++ str_int (num_intervals g) ++ " timestamps")%string).
Proof.
  intros Hg Hrun len_rows.
  pose proof (data_rows_of_run cfg w g f Hg Hrun) as Hrows. fold len_rows in Hrows.
  repeat split.
  - unfold printed. rewrite Hg. unfold run in Hrun. rewrite Hg in Hrun.
    cbn [bind] in Hrun.
    destruct (RowEmitter w g (EntityCatalog cfg w)); [reflexivity|discriminate].
  - exact Hrows.
  - intros Hn. unfold final_message, data_file_path.
    rewrite Hrows, Z.max_r by exact Hn.
    repeat (progress (rewrite ?append_assoc; cbn [append])). reflexivity.
Qed.

Lemma final_message_row_count_witness :
  let len_rows := Z.of_nat (List.length (EntityCatalog demo_config demo_world)) in
  printed "/opt/scripts" demo_config demo_world
  = summary_messages demo_config demo_world
    ++ [grid_message demo_config demo_grid;
        final_message "/opt/scripts" len_rows demo_grid]
  /\ Z.of_nat (List.length (data_lines demo_file))
     = len_rows * Z.max 0 (num_intervals demo_grid)
  /\ (0 <= num_intervals demo_grid ->
      final_message "/opt/scripts" len_rows demo_grid
      = ("Finished writing CSV at " ++ "/opt/scripts" ++ "/messages.csv with "
         ++ str_int (Z.of_nat (List.length (data_lines demo_file))) ++ " rows = "
         ++ str_int len_rows
         ++ " unique metrics (channel + subtopic + publisher + metric) x "
         ++ str_int (num_intervals demo_grid) ++ " timestamps")%string).
Proof.
  apply (final_message_row_count "/opt/scripts" demo_config demo_world
           demo_grid demo_file); vm_compute; reflexivity.
Defined.

(** In a completed run, the (subtopic, name) pairs read back from fields 2
    and 5 of the data lines are exactly the pairs
    [(subtopic_<s>, metric_<m>)] with [1 <= s <= S] and [1 <= m <= M] when
    the timestamp count, the channel count and the publisher count are
    positive; otherwise there is none. *)
Theorem run_label_pairs (cfg : config) (w : world) (g : time_grid)
  (f : string) (pr : string * string) :
  TimeGrid cfg w = Ok g -> run cfg w = Ok f ->
  In pr (map label_pair (data_lines f)) <->
  (0 < num_intervals g /\ 0 < num_channels cfg /\ 0 < num_publisher cfg /\
   exists s m, 1 <= s <= num_subtopic cfg /\ 1 <= m <= num_metrics cfg /\
     pr = (("subtopic_" ++ str_int s)%string, ("metric_" ++ str_int m)%string)).
Proof.
  intros Hg Hrun. rewrite (labels_of_run cfg w g f pr Hg Hrun).
  unfold config_label, nC, nS, nP, nM, subtopic_label, metric_label. split.
  - intros (Hn & HC & HP & s & m & Hs & Hm & ->). repeat split; try lia.
    exists (1 + Z.of_nat s), (1 + Z.of_nat m). repeat split; lia.
  - intros (Hn & HC & HP & s & m & Hs & Hm & ->). repeat split; try lia.
    exists (Z.to_nat (s - 1)), (Z.to_nat (m - 1)). repeat split; try lia.
    replace (1 + Z.of_nat (Z.to_nat (s - 1))) with s by lia.
    replace (1 + Z.of_nat (Z.to_nat (m - 1))) with m by lia. reflexivity.
Qed.

Lemma run_label_pairs_witness :
  In ("subtopic_1", "metric_2")%string (map label_pair (data_lines demo_file))
  <->
  (0 < num_intervals demo_grid /\ 0 < num_channels demo_config /\
   0 < num_publisher demo_config /\
   exists s m, 1 <= s <= num_subtopic demo_config /\
     1 <= m <= num_metrics demo_config /\
     ("subtopic_1", "metric_2")%string
     = (("subtopic_" ++ str_int s)%string, ("metric_" ++ str_int m)%string)).
Proof.
  apply (run_label_pairs demo_config demo_world demo_grid demo_file);
    vm_compute; reflexivity.
Defined.


(** ** The microsecond fraction of a timestamp *)

(** A double in [[0, 1)]: zero, or a 53-digit mantissa at an exponent of
    at most -53. *)
Definition is_fraction (f : spec_float) : Prop :=
  f = S754_zero false
  \/ exists m e, f = S754_finite false m e
                 /\ 2 ^ 52 <= Zpos m < 2 ^ 53 /\ -1074 <= e <= -53.

Lemma div_core_normal (m1 e1 m2 e2 : Z) :
  2 ^ 52 <= m1 < 2 ^ 53 -> 2 ^ 52 <= m2 < 2 ^ 53 -> -1021 <= e1 - e2 ->
  SFdiv_core_binary 53 1024 m1 e1 m2 e2
  = (m1 * 2 ^ 53 / m2, e1 - e2 - 53, new_location m2 ((m1 * 2 ^ 53) mod m2)).
Proof.
  intros H1 H2 He. unfold SFdiv_core_binary.
  rewrite (Zdigits2_unique m1 53), (Zdigits2_unique m2 53) by lia.
  rewrite fexp_eq.
  replace (Z.min (Z.max (53 + e1 - (53 + e2) - 53) (-1074)) (e1 - e2))
    with (e1 - e2 - 53) by lia.
  replace (e1 - e2 - (e1 - e2 - 53)) with 53 by lia.
  cbv iota. rewrite Z.shiftl_mul_pow2 by lia.
  unfold Z.div, Z.modulo. destruct (Z.div_eucl (m1 * 2 ^ 53) m2). reflexivity.
Qed.

Lemma million_eq :
  PyFloat.of_Z us_per_second
  = S754_finite false (Z.to_pos (1000000 * 2 ^ 33)) (-33).
Proof.
  reflexivity.
Qed.

(** [f] is a double in [[0, 1)] within half a unit in the last place of
    [us / 10^6]. *)
Definition fraction_of (us : Z) (f : spec_float) : Prop :=
  (us = 0 /\ f = S754_zero false)
  \/ exists m e, f = S754_finite false m e
                 /\ 2 ^ 52 <= Zpos m < 2 ^ 53 /\ -1074 <= e <= -53
                 /\ 2 * (us * 2 ^ (- e)) - 1000000
                    <= 2 * Zpos m * 1000000
                    <= 2 * (us * 2 ^ (- e)) + 1000000.

Lemma fraction_of_is_fraction (us : Z) (f : spec_float) :
  fraction_of us f -> is_fraction f.
Proof.
  intros [[_ ->]|(m & e & -> & Hm & He & _)]; [left; reflexivity|].
  right. exists m, e. auto.
Qed.

(** [us / 1e6] for a microsecond count is the nearest double below 1. *)
Lemma microsecond_fraction_of (us : Z) :
  0 <= us < 1000000 ->
  fraction_of us (PyFloat.div (PyFloat.of_Z us) (PyFloat.of_Z us_per_second)).
Proof.
  intros Hus. destruct (Z.eq_dec us 0) as [->|Hne]; [left; split; reflexivity|].
  right. rewrite million_eq. unfold PyFloat.of_Z, PyFloat.div.
  unfold PyFloat.prec, PyFloat.emax.
  assert (Hlt : 0 < us < 2 ^ 53) by lia.
  pose proof (digits_le_53 us Hlt) as Hd.
  assert (Hd20 : Zdigits2 us <= 20).
  { pose proof (Zdigits2_bounds us ltac:(lia)) as [Hlo _].
    destruct (Z_le_gt_dec (Zdigits2 us) 20) as [|Hgt]; auto.
    assert (2 ^ 20 <= 2 ^ (Zdigits2 us - 1)) by (apply Z.pow_le_mono_r; lia).
    lia. }
  destruct (binary_normalize_exact us 0 Hlt ltac:(lia)) as [E Hr]. rewrite E.
  set (d := Zdigits2 us) in *.
  set (m1 := us * 2 ^ (53 - d)) in *.
  cbn [SFdiv xorb]. rewrite Z2Pos.id by lia.
  change (Z.pos (Z.to_pos (1000000 * 2 ^ 33))) with (1000000 * 2 ^ 33).
  rewrite (div_core_normal m1 (d + 0 - 53) (1000000 * 2 ^ 33) (-33)) by lia.
  set (m2 := 1000000 * 2 ^ 33) in *.
  pose proof (Z.div_mod (m1 * 2 ^ 53) m2 ltac:(lia)) as Hdm.
  pose proof (Z.mod_pos_bound (m1 * 2 ^ 53) m2 ltac:(lia)) as Hrm.
  set (q := m1 * 2 ^ 53 / m2) in *. set (r := (m1 * 2 ^ 53) mod m2) in *.
  assert (Hq : 2 ^ 52 <= q < 4 * 2 ^ 52).
  { apply (quotient_size (m1 * 2 ^ 53) m2 q r (2 ^ 52) (2 ^ 52)); auto;
      unfold m2; try lia. }
  set (dq := Zdigits2 q).
  assert (Hdq : (dq = 53 /\ q < 2 ^ 53) \/ (dq = 54 /\ 2 ^ 53 <= q)).
  { destruct (Z_lt_ge_dec q (2 ^ 53)) as [Hlt'|Hge].
    - left. split; [|exact Hlt']. apply Zdigits2_unique; lia.
    - right. split; [|lia]. apply Zdigits2_unique; lia. }
  destruct (binary_round_aux_spec false q (d + 0 - 53 - -33 - 53)
              (new_location m2 r) (m1 * 2 ^ 53) m2) as (z & Hz & Hres).
  { lia. }
  { unfold m2; lia. }
  { rewrite Hdm, (Z.mul_comm m2 q). apply new_location_located; unfold m2; lia. }
  { fold dq. rewrite fexp_eq. lia. }
  fold dq in Hz, Hres. rewrite fexp_eq in Hz, Hres. rewrite Hres.
  set (T := 126 - d - dq).
  replace (Z.max (dq + (d + 0 - 53 - -33 - 53) - 53) (-1074)) with (- T) in *
    by (unfold T; lia).
  replace (- T - (d + 0 - 53 - -33 - 53)) with (dq - 53) in Hz
    by (unfold T; lia).
  assert (HT : 52 <= T <= 72) by (unfold T; lia).
  assert (HK : 0 < 2 ^ (dq - 53)) by (apply Z.pow_pos_nonneg; lia).
  assert (Hzr : 2 ^ 52 <= z <= 2 * 2 ^ 52).
  { apply (rounded_size (m1 * 2 ^ 53) m2 (2 ^ (dq - 53)) q r (2 ^ 52) z);
      auto; try (unfold m2; lia).
    destruct Hdq as [[Eq Hlt']|[Eq Hge]]; rewrite Eq.
    - change (2 ^ (53 - 53)) with 1. lia.
    - change (2 ^ (54 - 53)) with 2. lia. }
  (* the rounded quotient stays below 1 *)
  assert (Hbelow : z <= 2 ^ T - 1).
  { assert (HD : 0 < m2 * 2 ^ (dq - 53))
      by (apply Z.mul_pos_pos; [unfold m2; lia|exact HK]).
    apply (is_rne_le _ _ _ _ HD Hz).
    assert (E1 : m1 * 2 ^ 53 = us * 2 ^ (106 - d)).
    { unfold m1. rewrite <- Z.mul_assoc, <- pow2_split by lia.
      do 2 f_equal. lia. }
    assert (E2 : 2 ^ T * (2 ^ 33 * 2 ^ (dq - 53)) = 2 ^ (106 - d)).
    { rewrite <- !pow2_split by lia. f_equal. unfold T. lia. }
    assert (E3 : 2 ^ 33 * 2 ^ (dq - 53) <= 2 ^ 34)
      by (rewrite <- pow2_split by lia; apply Z.pow_le_mono_r; lia).
    assert (E4 : 2 ^ 54 <= 2 ^ (106 - d)) by (apply Z.pow_le_mono_r; lia).
    rewrite E1. unfold m2.
    set (X := 2 ^ (106 - d)) in *. set (Y := 2 ^ 33 * 2 ^ (dq - 53)) in *.
    replace ((2 ^ T - 1) * (1000000 * 2 ^ 33 * 2 ^ (dq - 53)))
      with (1000000 * (2 ^ T * Y) - 1000000 * Y) by (unfold Y; ring).
    rewrite E2.
    assert (H1 : 1000000 * Y <= X) by lia.
    assert (H2 : us * X <= 999999 * X)
      by (apply Z.mul_le_mono_nonneg_r; lia).
    lia. }
  assert (HT53 : 53 <= T).
  { destruct (Z_le_gt_dec 53 T) as [|Hgt]; auto.
    assert (T = 52) by lia. subst T.
    replace (126 - d - dq) with 52 in Hbelow by lia. lia. }
  assert (Hclose : 2 * (us * 2 ^ T) - 1000000
                   <= 2 * z * 1000000 <= 2 * (us * 2 ^ T) + 1000000).
  { apply is_rne_bounds; [lia|].
    assert (HY : 0 < 2 ^ 33 * 2 ^ (dq - 53)) by lia.
    apply (is_rne_scale _ _ _ z HY).
    replace (us * 2 ^ T * (2 ^ 33 * 2 ^ (dq - 53))) with (m1 * 2 ^ 53).
    - replace (1000000 * (2 ^ 33 * 2 ^ (dq - 53)))
        with (m2 * 2 ^ (dq - 53)) by (unfold m2; ring).
      exact Hz.
    - unfold m1. rewrite <- !Z.mul_assoc, <- !pow2_split by lia.
      do 2 f_equal. unfold T. lia. }
  destruct (Z.eq_dec z (2 ^ 53)) as [Ez|Hzne].
  - rewrite Ez in *.
    assert (54 <= T).
    { destruct (Z_le_gt_dec 54 T) as [|Hgt]; auto.
      assert (ET : T = 53) by lia. rewrite ET in Hbelow. lia. }
    rewrite pack_carry by lia. eexists _, _. split; [reflexivity|].
    rewrite Z2Pos.id by lia.
    replace (- (- T + 1)) with (T - 1) by lia.
    assert (ET : 2 ^ T = 2 * 2 ^ (T - 1))
      by (rewrite <- Z.pow_succ_r by lia; f_equal; lia).
    rewrite ET in Hclose. lia.
  - rewrite pack_keep by lia. eexists _, _. split; [reflexivity|].
    rewrite Z2Pos.id by lia. rewrite Z.opp_involutive. lia.
Qed.

Lemma microsecond_fraction (us : Z) :
  0 <= us < 1000000 ->
  is_fraction (PyFloat.div (PyFloat.of_Z us) (PyFloat.of_Z us_per_second)).
Proof.
  intros Hus. apply (fraction_of_is_fraction us), microsecond_fraction_of, Hus.
Qed.

(** ** Seconds plus fraction, times 1e9 *)

Lemma shl_align_ge (m : positive) (e e' : Z) :
  e <= e' -> shl_align m e e' = (m, e).
Proof.
  intros He. unfold shl_align. destruct (e' - e) as [|p|p] eqn:E; try lia;
    reflexivity.
Qed.

Lemma is_rne_translate (N D z k : Z) :
  Z.even k = true -> is_rne N D z -> is_rne (N + k * D) D (z + k).
Proof.
  intros Hk H. unfold is_rne in *.
  replace (N + k * D - (z + k) * D) with (N - z * D) by ring.
  replace ((z + k) * D - (N + k * D)) with (z * D - N) by ring.
  rewrite Z.even_add, Hk. destruct H as [H|[H Ev]]; [left; exact H|right].
  split; [exact H|]. rewrite Ev. reflexivity.
Qed.

(** The mantissa [z], at exponent -22, of [float(s) + f]. *)
Definition seconds_mantissa (s : Z) (f : spec_float) (z : Z) : Prop :=
  match f with
  | S754_zero _ => z = s * 2 ^ 22
  | S754_finite _ m e => is_rne (s * 2 ^ (- e) + Zpos m) (2 ^ (-22 - e)) z
  | _ => False
  end.

Lemma seconds_eq (s : Z) :
  2 ^ 30 <= s < 2 ^ 31 ->
  PyFloat.of_Z s = S754_finite false (Z.to_pos (s * 2 ^ 22)) (-22).
Proof.
  intros Hs. unfold PyFloat.of_Z, PyFloat.prec, PyFloat.emax.
  assert (Hd : Zdigits2 s = 31) by (apply Zdigits2_unique; lia).
  destruct (binary_normalize_exact s 0 ltac:(lia) ltac:(lia)) as [E _].
  rewrite E, Hd. reflexivity.
Qed.

(** POSIX seconds between 2004 and 2038 plus a fraction: the sum is a
    double with exponent -22, between the second and the next one. *)
Lemma add_seconds (s : Z) (f : spec_float) :
  2 ^ 30 <= s <= 2 ^ 31 - 2 -> is_fraction f ->
  exists z,
    PyFloat.add (PyFloat.of_Z s) f = S754_finite false (Z.to_pos z) (-22)
    /\ s * 2 ^ 22 <= z <= (s + 1) * 2 ^ 22
    /\ seconds_mantissa s f z.
Proof.
  intros Hs Hf. rewrite seconds_eq by lia.
  destruct Hf as [->|(m & e & -> & Hm & He)].
  - exists (s * 2 ^ 22). repeat split; try lia.
  - unfold PyFloat.add, PyFloat.prec, PyFloat.emax. cbn [SFadd cond_Zopp].
    replace (Z.min (-22) e) with e by lia.
    pose proof (shl_align_spec (Z.to_pos (s * 2 ^ 22)) (-22) e ltac:(lia)) as H1.
    destruct (shl_align (Z.to_pos (s * 2 ^ 22)) (-22) e) as [a ea].
    destruct H1 as [Ea _]. rewrite Z2Pos.id in Ea by lia.
    rewrite (shl_align_ge m e e) by lia. cbn [fst].
    set (n := -22 - e) in *.
    assert (Hn : 31 <= n <= 1052) by (unfold n; lia).
    assert (Epow : 2 ^ (- e) = 2 ^ 22 * 2 ^ n)
      by (rewrite <- pow2_split by lia; f_equal; unfold n; lia).
    assert (Hpow : 2 ^ 53 <= 2 ^ (- e))
      by (apply Z.pow_le_mono_r; lia).
    set (X := 2 ^ (- e)) in *.
    assert (Ea' : Zpos a = s * X) by (rewrite Ea, Epow; ring).
    set (Sum := Zpos a + Zpos m).
    assert (HSum : s * X <= Sum < (s + 1) * X) by (unfold Sum; lia).
    assert (Hdig : Zdigits2 Sum = 31 - e).
    { apply Zdigits2_unique; [|lia].
      replace (2 ^ (31 - e - 1)) with (2 ^ 30 * X)
        by (unfold X; rewrite <- pow2_split by lia; f_equal; lia).
      replace (2 ^ (31 - e)) with (2 ^ 31 * X)
        by (unfold X; rewrite <- pow2_split by lia; f_equal; lia).
      nia. }
    assert (ESum : Sum = Zpos (a + m)) by reflexivity.
    rewrite ESum in Hdig |- *.
    cbn [binary_normalize]. unfold binary_round.
    change (Z.pos (digits2_pos (a + m))) with (Zdigits2 (Zpos (a + m))).
    rewrite Hdig, fexp_eq.
    replace (Z.max (31 - e + e - 53) (-1074)) with (-22) by lia.
    rewrite shl_align_ge by lia.
    destruct (binary_round_aux_spec false (Zpos (a + m)) e loc_Exact
                (Zpos (a + m)) 1) as (z & Hz & Hres); try lia.
    { cbn [located]. lia. }
    { rewrite Hdig, fexp_eq. lia. }
    rewrite Hdig, fexp_eq in Hz, Hres.
    replace (Z.max (31 - e + e - 53) (-1074)) with (-22) in * by lia.
    fold n in Hz. rewrite Z.mul_1_l in Hz. rewrite <- ESum in Hz.
    assert (HN : 0 < 2 ^ n) by (apply Z.pow_pos_nonneg; lia).
    assert (Hzr : s * 2 ^ 22 <= z <= (s + 1) * 2 ^ 22).
    { split.
      - apply (is_rne_ge _ _ _ _ HN Hz). rewrite <- Z.mul_assoc, <- Epow. lia.
      - apply (is_rne_le _ _ _ _ HN Hz). rewrite <- Z.mul_assoc, <- Epow. lia. }
    exists z. split; [|split; [exact Hzr|]].
    + rewrite Hres, pack_keep by lia. reflexivity.
    + cbn [seconds_mantissa]. fold n. fold X. rewrite <- Ea'. exact Hz.
Qed.

Lemma seconds_mantissa_stride (s delta : Z) (f : spec_float) (z z' : Z) :
  is_fraction f ->
  seconds_mantissa s f z -> seconds_mantissa (s + delta) f z' ->
  z' = z + delta * 2 ^ 22.
Proof.
  intros [->|(m & e & -> & Hm & He)]; cbn [seconds_mantissa].
  - intros -> ->. ring.
  - intros Hz Hz'.
    assert (HN : 0 < 2 ^ (-22 - e)) by (apply Z.pow_pos_nonneg; lia).
    apply (is_rne_unique _ _ _ _ HN Hz').
    replace ((s + delta) * 2 ^ (- e) + Zpos m)
      with (s * 2 ^ (- e) + Zpos m + delta * 2 ^ 22 * 2 ^ (-22 - e)).
    + apply is_rne_translate; [|exact Hz].
      rewrite Z.even_mul. change (Z.even (2 ^ 22)) with true.
      apply orb_true_r.
    + replace (2 ^ (- e)) with (2 ^ 22 * 2 ^ (-22 - e))
        by (rewrite <- pow2_split by lia; f_equal; lia).
      ring.
Qed.

Lemma int_of_float_pack_up (sx : bool) (z e : Z) :
  0 < z <= 2 ^ 53 -> 0 <= e <= 970 ->
  PyFloat.int_of_float (pack sx z e) = Ok (cond_Zopp sx (z * 2 ^ e)).
Proof.
  intros Hz He. destruct (Z.eq_dec z (2 ^ 53)) as [->|Hne].
  - rewrite pack_carry by lia. cbn [PyFloat.int_of_float].
    rewrite Z2Pos.id by reflexivity.
    replace (0 <=? e + 1) with true by (symmetry; apply Z.leb_le; lia).
    do 2 f_equal. rewrite Z.pow_add_r by lia.
    change (2 ^ 53) with (2 ^ 52 * 2). ring.
  - rewrite pack_keep by lia. cbn [PyFloat.int_of_float].
    rewrite Z2Pos.id by lia.
    replace (0 <=? e) with true by (symmetry; apply Z.leb_le; lia).
    reflexivity.
Qed.

(** Line 63 on a double of exponent -22 whose product with 1e9 lies in
    [[2^60, 2^61)]: the result is a multiple of 256. *)
Lemma mul_billion (z : Z) :
  2 ^ 52 <= z < 2 ^ 53 ->
  2 ^ 82 <= z * 1000000000 < 2 ^ 83 ->
  exists y zy,
    PyFloat.mul_int (S754_finite false (Z.to_pos z) (-22)) 1000000000 = Ok y
    /\ PyFloat.int_of_float y = Ok (zy * 256)
    /\ is_rne (z * 1000000000) (2 ^ 30) zy.
Proof.
  intros Hz Hv. unfold PyFloat.mul_int.
  change (PyFloat.float_of_int 1000000000)
    with (Ok (S754_finite false (Z.to_pos (1000000000 * 2 ^ 23)) (-23))).
  cbn [bind]. unfold PyFloat.mul, PyFloat.prec, PyFloat.emax.
  cbn [SFmul xorb].
  set (P := Zpos (Z.to_pos z * Z.to_pos (1000000000 * 2 ^ 23))).
  assert (EP : P = z * 1000000000 * 2 ^ 23).
  { unfold P. rewrite Pos2Z.inj_mul, !Z2Pos.id by lia. ring. }
  assert (HP : 2 ^ 105 <= P < 2 ^ 106).
  { rewrite EP. change (2 ^ 105) with (2 ^ 82 * 2 ^ 23).
    change (2 ^ 106) with (2 ^ 83 * 2 ^ 23). lia. }
  clearbody P.
  assert (Hd : Zdigits2 P = 106) by (apply Zdigits2_unique; lia).
  destruct (binary_round_aux_spec false P (-22 + -23) loc_Exact P 1)
    as (zy & Hzy & Hres); try lia.
  { cbn [located]. lia. }
  { rewrite Hd, fexp_eq. lia. }
  rewrite Hd, fexp_eq in Hzy, Hres.
  replace (Z.max (106 + (-22 + -23) - 53) (-1074)) with 8 in * by lia.
  replace (8 - (-22 + -23)) with 53 in Hzy by lia.
  rewrite Z.mul_1_l in Hzy.
  assert (Hzy' : is_rne (z * 1000000000) (2 ^ 30) zy).
  { apply (is_rne_scale _ _ (2 ^ 23)); [lia|].
    rewrite <- EP. change (2 ^ 30 * 2 ^ 23) with (2 ^ 53). exact Hzy. }
  assert (Hr : 2 ^ 52 <= zy <= 2 ^ 53).
  { split.
    - apply (is_rne_ge P (2 ^ 53) zy _ ltac:(lia) Hzy). lia.
    - apply (is_rne_le P (2 ^ 53) zy _ ltac:(lia) Hzy). lia. }
  exists (pack false zy 8), zy. rewrite Hres. split; [reflexivity|].
  split; [|exact Hzy'].
  rewrite int_of_float_pack_up by lia. reflexivity.
Qed.

Lemma billion_stride (z delta zy zy' : Z) :
  is_rne (z * 1000000000) (2 ^ 30) zy ->
  is_rne ((z + delta * 2 ^ 22) * 1000000000) (2 ^ 30) zy' ->
  zy' * 256 = zy * 256 + delta * 1000000000.
Proof.
  intros H H'.
  assert (E : zy' = zy + 2 * (delta * 1953125)).
  { apply (is_rne_unique ((z + delta * 2 ^ 22) * 1000000000) (2 ^ 30) _ _ ltac:(lia) H').
    replace ((z + delta * 2 ^ 22) * 1000000000)
      with (z * 1000000000 + 2 * (delta * 1953125) * 2 ^ 30) by ring.
    apply is_rne_translate; [|exact H].
    rewrite Z.even_mul. reflexivity. }
  rewrite E. ring.
Qed.

(** ** Accuracy of a timestamp *)

Lemma chain_accuracy (s us z zy : Z) (f : spec_float) :
  fraction_of us f ->
  seconds_mantissa s f z ->
  is_rne (z * 1000000000) (2 ^ 30) zy ->
  -247 <= zy * 256 - (s * 1000000000 + us * 1000) <= 247.
Proof.
  intros Hf Hm Hzy. apply is_rne_bounds in Hzy; [|lia].
  destruct Hf as [[-> ->]|(m & e & -> & Hmr & He & H1)];
    cbn [seconds_mantissa] in Hm.
  - subst z. lia.
  - assert (HD : 2 ^ 31 <= 2 ^ (-22 - e)) by (apply Z.pow_le_mono_r; lia).
    apply is_rne_bounds in Hm; [|lia].
    assert (EX : 2 ^ (- e) = 2 ^ 22 * 2 ^ (-22 - e))
      by (rewrite <- pow2_split by lia; f_equal; lia).
    rewrite EX in *.
    set (D := 2 ^ (-22 - e)) in *. clearbody D.
    set (Q := zy * 256 - (s * 1000000000 + us * 1000)).
    assert (H3lo : (2 * (z * 1000000000) - 2 ^ 30) * D
                   <= 2 * zy * 2 ^ 30 * D)
      by (apply Z.mul_le_mono_nonneg_r; lia).
    assert (H3hi : 2 * zy * 2 ^ 30 * D
                   <= (2 * (z * 1000000000) + 2 ^ 30) * D)
      by (apply Z.mul_le_mono_nonneg_r; lia).
    assert (EQ : 2 ^ 23 * (Q * D)
                 = 2 * zy * 2 ^ 30 * D
                   - 1000000000 * (2 * (s * (2 ^ 22 * D)))
                   - 1000 * (2 * (us * (2 ^ 22 * D))))
      by (unfold Q; ring).
    assert (Ez : (2 * (z * 1000000000) - 2 ^ 30) * D
                 = 1000000000 * (2 * z * D) - 2 ^ 30 * D) by ring.
    assert (Ez' : (2 * (z * 1000000000) + 2 ^ 30) * D
                  = 1000000000 * (2 * z * D) + 2 ^ 30 * D) by ring.
    assert (Es : 2 * (s * (2 ^ 22 * D) + Zpos m)
                 = 2 * (s * (2 ^ 22 * D)) + 2 * Zpos m) by ring.
    rewrite Ez in H3lo. rewrite Ez' in H3hi. rewrite Es in Hm.
    set (A := 2 * zy * 2 ^ 30 * D) in *. set (B := 2 * z * D) in *.
    set (S2 := 2 * (s * (2 ^ 22 * D))) in *.
    set (U2 := 2 * (us * (2 ^ 22 * D))) in *.
    clearbody A B S2 U2.
    assert (Hb : - (2073741824 * D + 1000000000) <= 2 ^ 23 * (Q * D)
                 <= 2073741824 * D + 1000000000) by lia.
    clear - Hb HD. split.
    + destruct (Z_le_gt_dec (-247) Q) as [|Hgt]; [assumption|exfalso].
      assert (Q * D <= -248 * D) by (apply Z.mul_le_mono_nonneg_r; lia).
      lia.
    + destruct (Z_le_gt_dec Q 247) as [|Hgt]; [assumption|exfalso].
      assert (248 * D <= Q * D) by (apply Z.mul_le_mono_nonneg_r; lia).
      lia.
Qed.

(** ** The timestamps of a run (lines 61-63) *)

Lemma map_result_all {A B : Type} (f : A -> result B) (h : A -> B)
      (xs : list A) :
  (forall x, In x xs -> f x = Ok (h x)) -> map_result f xs = Ok (map h xs).
Proof.
  induction xs as [|x xs IH]; intros H; cbn [map_result map]; [reflexivity|].
  rewrite (H x (or_introl eq_refl)). cbn [bind].
  rewrite IH by (intros y Hy; apply H; right; exact Hy). reflexivity.
Qed.

Lemma in_py_range (lo hi i : Z) : In i (py_range lo hi) -> lo <= i < hi.
Proof.
  unfold py_range. rewrite in_map_iff. intros (k & <- & Hk).
  apply in_seq in Hk. lia.
Qed.

(** The float part of lines 62-63 for a datetime whose POSIX second [s]
    lies between 2006-07-14T23:58:25Z and 2038-01-19T03:14:06Z. *)
Lemma timestamp_chain (l2s : Z -> result Z) (t s : Z) :
  l2s (t / us_per_second) = Ok s ->
  1152921505 <= s <= 2147483646 ->
  exists z zy,
    seconds_mantissa s
      (PyFloat.div (PyFloat.of_Z (t mod us_per_second))
                   (PyFloat.of_Z us_per_second)) z
    /\ is_rne (z * 1000000000) (2 ^ 30) zy
    /\ (x <- timestamp l2s t ;;
        y <- PyFloat.mul_int x 1000000000 ;;
        PyFloat.int_of_float y) = Ok (zy * 256)
    /\ -247 <= zy * 256 - (s * 1000000000 + t mod us_per_second * 1000)
       <= 247.
Proof.
  intros Hl Hs. unfold timestamp. rewrite Hl. cbn [bind].
  pose proof (microsecond_fraction_of (t mod us_per_second)
                (Z.mod_pos_bound t us_per_second eq_refl)) as Hf.
  destruct (add_seconds s _ ltac:(lia) (fraction_of_is_fraction _ _ Hf))
    as (z & Ez & Hz & Hm).
  rewrite Ez.
  destruct (mul_billion z ltac:(lia) ltac:(lia)) as (y & zy & Ey & Ei & Hzy).
  exists z, zy. rewrite Ey. cbn [bind].
  repeat split; auto; apply (chain_accuracy _ _ _ _ _ Hf Hm Hzy).
Qed.

(** The instants of the grid stay inside the window, so that neither the
    [timedelta] product nor the [datetime] sum of line 62 raises. *)
Lemma timestamp_ns_window (cfg : config) (w : world) (g : time_grid)
      (c i : Z) :
  TimeGrid cfg w = Ok g ->
  0 < last_num_days cfg -> 0 < data_interval_minutes cfg ->
  valid_datetime (now w) ->
  (forall wall,
      start_time g / us_per_second <= wall <= now w / us_per_second ->
      local_to_seconds w wall = Ok (wall - c)) ->
  1152921505 <= start_time g / us_per_second - c ->
  now w / us_per_second - c <= 2147483646 ->
  0 <= i < num_intervals g \/ i = 0 ->
  let t := start_time g + i * interval g in
  t / us_per_second
  = start_time g / us_per_second + i * data_interval_minutes cfg * 60
  /\ t mod us_per_second = start_time g mod us_per_second
  /\ exists z zy,
      seconds_mantissa (t / us_per_second - c)
        (PyFloat.div (PyFloat.of_Z (t mod us_per_second))
                     (PyFloat.of_Z us_per_second)) z
      /\ is_rne (z * 1000000000) (2 ^ 30) zy
      /\ (0 <= i < num_intervals g -> timestamp_ns w g i = Ok (zy * 256))
      /\ -247 <= zy * 256 - (t - c * us_per_second) * 1000 <= 247.
Proof.
  intros Hg HW HI Hnow Hzone Hlo Hhi Hin.
  rewrite TimeGrid_closed_form in Hg.
  destruct (window_in_range cfg && start_in_range cfg w
            && interval_in_range cfg) eqn:Hr; [|discriminate].
  destruct (data_interval_minutes cfg =? 0); [discriminate|].
  apply andb_prop in Hr as [Hr _]. apply andb_prop in Hr as [Hwin Hst].
  apply andb_prop in Hwin as [_ Hwin]. apply Z.leb_le in Hwin.
  apply andb_prop in Hst as [Hst _]. apply Z.leb_le in Hst.
  injection Hg as <-. cbn [start_time interval num_intervals] in *.
  set (W := last_num_days cfg) in *. set (I := data_interval_minutes cfg) in *.
  set (t0 := now w - W * us_per_day) in *.
  set (n := Z.quot (W * 24 * 60) I) in *.
  assert (Hi0 : 0 <= i) by lia.
  assert (HiI : i * I < W * 1440).
  { destruct Hin as [Hin| ->]; [|lia].
    assert (En : n = W * 1440 / I).
    { unfold n. replace (W * 24 * 60) with (W * 1440) by ring.
      apply Z.quot_div_nonneg; lia. }
    pose proof (Z.mul_div_le (W * 1440) I HI) as Hle.
    rewrite <- En in Hle. nia. }
  set (t := t0 + i * (I * 60 * us_per_second)).
  assert (Ht : t0 <= t < now w)
    by (unfold t, t0, us_per_day, us_per_second; nia).
  assert (Ediv : t / us_per_second = t0 / us_per_second + i * I * 60).
  { unfold t. replace (i * (I * 60 * us_per_second))
      with (i * I * 60 * us_per_second) by ring.
    apply Z.div_add. discriminate. }
  assert (Emod : t mod us_per_second = t0 mod us_per_second).
  { unfold t. replace (i * (I * 60 * us_per_second))
      with (i * I * 60 * us_per_second) by ring.
    apply Z.mod_add. discriminate. }
  assert (Hwall : t0 / us_per_second <= t / us_per_second
                  <= now w / us_per_second).
  { split; apply Z.div_le_mono; try reflexivity; lia. }
  cbv zeta. split; [exact Ediv|]. split; [exact Emod|].
  destruct (timestamp_chain (local_to_seconds w) t (t / us_per_second - c))
    as (z & zy & Hm & Hzy & E & Hacc); [apply Hzone; exact Hwall|lia|].
  exists z, zy. split; [exact Hm|]. split; [exact Hzy|]. split.
  - intros _. unfold timestamp_ns. cbn [start_time interval].
    unfold int_mul_delta, check_delta.
    assert (Hd : 0 <= i * (I * 60 * us_per_second) / us_per_day <= W).
    { split.
      - apply Z.div_pos; [|reflexivity]. unfold us_per_second. nia.
      - apply Z.lt_le_incl, Z.div_lt_upper_bound; [reflexivity|].
        unfold us_per_day, us_per_second. lia. }
    replace ((- max_delta_days <=? i * (I * 60 * us_per_second) / us_per_day)
             && (i * (I * 60 * us_per_second) / us_per_day <=? max_delta_days))
      with true
      by (symmetry; apply andb_true_intro; split; apply Z.leb_le;
          unfold max_delta_days in *; lia).
    cbn [bind]. unfold add_delta, check_datetime. fold t.
    replace ((0 <=? t) && (t <? max_ordinal * us_per_day)) with true
      by (symmetry; apply andb_true_intro; split;
          [apply Z.leb_le|apply Z.ltb_lt]; unfold valid_datetime in Hnow; lia).
    cbn [bind]. exact E.
  - pose proof (Z.div_mod t us_per_second ltac:(discriminate)) as Hdm.
    replace ((t - c * us_per_second) * 1000)
      with ((t / us_per_second - c) * 1000000000
            + t mod us_per_second * 1000); [exact Hacc|].
    unfold us_per_second in *. lia.
Qed.

(** Inside one zone offset and one binade of the nanosecond count, the
    timestamps of a run are multiples of 256 ns in arithmetic progression:
    consecutive ones differ by exactly the interval, [I * 60 * 10^9] ns. *)
Theorem grid_progression (cfg : config) (w : world) (g : time_grid) (c : Z) :
  TimeGrid cfg w = Ok g ->
  0 < last_num_days cfg -> 0 < data_interval_minutes cfg ->
  valid_datetime (now w) ->
  (forall wall,
      start_time g / us_per_second <= wall <= now w / us_per_second ->
      local_to_seconds w wall = Ok (wall - c)) ->
  1152921505 <= start_time g / us_per_second - c ->
  now w / us_per_second - c <= 2147483646 ->
  exists k,
    (forall i, 0 <= i < num_intervals g ->
       timestamp_ns w g i
       = Ok (256 * k + i * (data_interval_minutes cfg * 60 * 1000000000)))
    /\ grid_ns w g
       = Ok (map (fun i => 256 * k
                           + i * (data_interval_minutes cfg * 60 * 1000000000))
                 (py_range 0 (num_intervals g))).
Proof.
  intros Hg HW HI Hnow Hzone Hlo Hhi.
  destruct (timestamp_ns_window cfg w g c 0 Hg HW HI Hnow Hzone Hlo Hhi
              (or_intror eq_refl))
    as (_ & _ & z0 & zy0 & Hm0 & Hzy0 & _).
  rewrite Z.mul_0_l, Z.add_0_r in Hm0.
  assert (Hi : forall i, 0 <= i < num_intervals g ->
             timestamp_ns w g i
             = Ok (256 * zy0
                   + i * (data_interval_minutes cfg * 60 * 1000000000))).
  { intros i Hin.
    destruct (timestamp_ns_window cfg w g c i Hg HW HI Hnow Hzone Hlo Hhi
                (or_introl Hin))
      as (Ediv & Emod & z & zy & Hm & Hzy & E & _).
    rewrite (E Hin). f_equal. rewrite Emod, Ediv in Hm.
    replace (start_time g / us_per_second
             + i * data_interval_minutes cfg * 60 - c)
      with (start_time g / us_per_second - c
            + i * data_interval_minutes cfg * 60) in Hm by lia.
    pose proof (seconds_mantissa_stride _ _ _ _ _
                  (microsecond_fraction (start_time g mod us_per_second)
                     (Z.mod_pos_bound _ us_per_second eq_refl)) Hm0 Hm) as Ez.
    subst z.
    pose proof (billion_stride _ _ _ _ Hzy0 Hzy) as Ezy. lia. }
  exists zy0. split; [exact Hi|].
  unfold grid_ns. apply map_result_all. intros i Hin.
  apply in_py_range in Hin. apply Hi. exact Hin.
Qed.

(** Under the same conditions every timestamp is a multiple of 256 ns
    within 247 ns of the exact nanosecond count of its instant: the
    microsecond digits of the clock are not written exactly. *)
Theorem timestamp_accuracy (cfg : config) (w : world) (g : time_grid)
        (c i : Z) :
  TimeGrid cfg w = Ok g ->
  0 < last_num_days cfg -> 0 < data_interval_minutes cfg ->
  valid_datetime (now w) ->
  (forall wall,
      start_time g / us_per_second <= wall <= now w / us_per_second ->
      local_to_seconds w wall = Ok (wall - c)) ->
  1152921505 <= start_time g / us_per_second - c ->
  now w / us_per_second - c <= 2147483646 ->
  0 <= i < num_intervals g ->
  exists ns,
    timestamp_ns w g i = Ok ns
    /\ ns mod 256 = 0
    /\ -247 <= ns - (start_time g + i * interval g - c * us_per_second) * 1000
       <= 247.
Proof.
  intros Hg HW HI Hnow Hzone Hlo Hhi Hin.
  destruct (timestamp_ns_window cfg w g c i Hg HW HI Hnow Hzone Hlo Hhi
              (or_introl Hin))
    as (_ & _ & z & zy & _ & _ & E & Hacc).
  exists (zy * 256). split; [exact (E Hin)|]. split; [|exact Hacc].
  apply Z.mod_mul. discriminate.
Qed.

Lemma demo_zone (wall : Z) :
  start_time demo_grid / us_per_second <= wall
  <= now demo_world / us_per_second ->
  local_to_seconds demo_world wall = Ok (wall - epoch_seconds).
Proof.
  assert (E1 : start_time demo_grid / us_per_second = 63835596800)
    by reflexivity.
  assert (E2 : now demo_world / us_per_second = 63835683200) by reflexivity.
  rewrite E1, E2. intros Hw.
  cbn [local_to_seconds demo_world]. unfold fixed_offset_zone.
  replace ((wall + 0 <? 0) || (max_ordinal * 86400 <=? wall + 0)
           || (wall - 86400 <? 0)) with false.
  - f_equal. lia.
  - symmetry. rewrite !orb_false_iff, !Z.ltb_ge, Z.leb_gt.
    unfold max_ordinal. lia.
Qed.

Lemma grid_progression_witness :
  exists k,
    (forall i, 0 <= i < num_intervals demo_grid ->
       timestamp_ns demo_world demo_grid i
       = Ok (256 * k
             + i * (data_interval_minutes demo_config * 60 * 1000000000)))
    /\ grid_ns demo_world demo_grid
       = Ok (map (fun i => 256 * k
                           + i * (data_interval_minutes demo_config
                                  * 60 * 1000000000))
                 (py_range 0 (num_intervals demo_grid))).
Proof.
  apply (grid_progression demo_config demo_world demo_grid epoch_seconds).
  - vm_compute; reflexivity.
  - vm_compute; reflexivity.
  - vm_compute; reflexivity.
  - split; vm_compute; [discriminate|reflexivity].
  - exact demo_zone.
  - vm_compute; discriminate.
  - vm_compute; discriminate.
Defined.

Lemma timestamp_accuracy_witness :
  exists ns,
    timestamp_ns demo_world demo_grid 1 = Ok ns
    /\ ns mod 256 = 0
    /\ -247 <= ns - (start_time demo_grid + 1 * interval demo_grid
                     - epoch_seconds * us_per_second) * 1000
       <= 247.
Proof.
  apply (timestamp_accuracy demo_config demo_world demo_grid epoch_seconds 1).
  - vm_compute; reflexivity.
  - vm_compute; reflexivity.
  - vm_compute; reflexivity.
  - split; vm_compute; [discriminate|reflexivity].
  - exact demo_zone.
  - vm_compute; discriminate.
  - vm_compute; discriminate.
  - split; vm_compute; [discriminate|reflexivity].
Defined.


(** ** Line 63 raises nothing *)






(** ** Runs that complete *)





